(** * SLD naming popularity: a shallow embedding of [main.py]

    The script reads the Public Suffix List, keeps the ICANN section,
    splits every suffix into labels and aggregates three indexes from
    which two frequency tables and two JSON reports are written.

    A Python [str] is modelled as a [string] whose characters stand for the
    code points below 256; [dict] and [defaultdict] are [gmap]s, Python sets
    are [gset]s, Python integers are [Z]. A [gmap] does not record the
    insertion order of a [dict]: the script only enumerates its dictionaries
    to sort them on keys that tell all items apart, and [ranked_unique]
    shows that the enumeration order does not reach the output. Printing and
    file writing are threaded through a state and error monad [M]. *)

Set Warnings "-register-all".
From Stdlib Require Import ZArith Ascii.
From stdpp Require Import gmap strings list fin_maps sorting pretty.

Local Open Scope Z_scope.

(** ** The Python string and list primitives the script uses *)

Module Py.

(** [s.startswith(prefix)] *)
Fixpoint startswith (s pre : string) {struct pre} : bool :=
  match pre, s with
  | EmptyString, _ => true
  | String _ _, EmptyString => false
  | String p pre', String c s' =>
      if Ascii.eqb c p then startswith s' pre' else false
  end.

(** [sub in s] on strings: [sub] occurs somewhere in [s]. *)
Fixpoint contains (sub s : string) : bool :=
  startswith s sub ||
  match s with
  | EmptyString => false
  | String _ s' => contains sub s'
  end.

(** [s.split(sep)] for a one-character separator: the pieces between the
    separators, empty pieces included; never the empty list. *)
Fixpoint split (sep : ascii) (s : string) : list string :=
  match s with
  | EmptyString => [EmptyString]
  | String c s' =>
      if Ascii.eqb c sep then EmptyString :: split sep s'
      else match split sep s' with
           | [] => [String c EmptyString] (* not reached: see [split_nonempty] *)
           | w :: ws => String c w :: ws
           end
  end.

(** The characters [str.strip()] removes, among the code points below 256. *)
Definition isspace (c : ascii) : bool :=
  let n := Ascii.N_of_ascii c in
  ((9 <=? n) && (n <=? 13) || (28 <=? n) && (n <=? 32)
   || (n =? 133) || (n =? 160))%N.

Fixpoint lstrip_space (s : string) : string :=
  match s with
  | EmptyString => EmptyString
  | String c s' => if isspace c then lstrip_space s' else s
  end.

Fixpoint rstrip_space (s : string) : string :=
  match s with
  | EmptyString => EmptyString
  | String c s' =>
      match rstrip_space s' with
      | EmptyString => if isspace c then EmptyString else String c EmptyString
      | r => String c r
      end
  end.

(** [s.strip()] *)
Definition strip (s : string) : string := rstrip_space (lstrip_space s).

Fixpoint char_in (c : ascii) (chars : string) : bool :=
  match chars with
  | EmptyString => false
  | String d chars' => Ascii.eqb c d || char_in c chars'
  end.

(** [s.lstrip(chars)]: drops the longest prefix made of characters of
    [chars]. *)
Fixpoint lstrip (chars s : string) : string :=
  match s with
  | EmptyString => EmptyString
  | String c s' => if char_in c chars then lstrip chars s' else s
  end.

(** [l[a:b]] for [0 <= a] and [0 <= b]. *)
Definition slice {A} (l : list A) (a b : nat) : list A := drop a (take b l).

(** [bool(s)] of a string: non-empty. *)
Definition truthy (s : string) : bool :=
  match s with EmptyString => false | _ => true end.

(** Tuple comparison [(a1, b1) < (a2, b2)]: the first components decide
    unless they are equal. *)
Definition tuple_ltb (k1 k2 : Z * string) : bool :=
  if k1.1 =? k2.1 then String.ltb k1.2 k2.2 else k1.1 <? k2.1.

(** [sorted(l, key=key)]: a stable sort that compares keys with [<]. *)
Section sorted.
Context {A K : Type} (ltb : K → K → bool) (key : A → K).

Fixpoint insert_sorted (x : A) (l : list A) : list A :=
  match l with
  | [] => [x]
  | y :: l' =>
      if ltb (key y) (key x) then y :: insert_sorted x l' else x :: l
  end.

Definition sorted (l : list A) : list A := foldr insert_sorted [] l.
End sorted.

End Py.

(** ** Exceptions *)

(** [ValueError] is what the script raises itself; [FetchError] stands for
    whatever [urlopen], [read] or [decode] raise inside [fetch_psl]. *)
Inductive exn :=
| ValueError (msg : string)
| FetchError (msg : string).

Definition nl : ascii := "010"%char.

(** ** [extract_icann_domains] *)

Definition start_marker : string := "// ===BEGIN ICANN DOMAINS===".
Definition end_marker : string := "// ===END ICANN DOMAINS===".

(** The [for idx, line in enumerate(lines)] loop, from line [idx] on, with
    the current [start_idx]; returns [(start_idx, end_idx)] at loop exit. *)
Fixpoint find_markers (lines : list string) (idx : nat) (start_idx : option nat)
  : option nat * option nat :=
  match lines with
  | [] => (start_idx, None)
  | line :: rest =>
      if Py.contains start_marker line then
        find_markers rest (S idx) (Some (S idx))
      else if Py.contains end_marker line then (start_idx, Some idx)
      else find_markers rest (S idx) start_idx
  end.

Definition markers_error : exn :=
  ValueError "Could not find ICANN domains section markers".

Definition extract_icann_domains (psl_content : string) : exn + list string :=
  let lines := Py.split nl psl_content in
  match find_markers lines 0 None with
  | (Some start_idx, Some end_idx) => inr (Py.slice lines start_idx end_idx)
  | _ => inl markers_error
  end.

(** ** [parse_domains] *)

(** The three indexes the parser returns, under the names of the source's
    local variables. *)
Record indexes := Indexes {
  component_tlds : gmap string (gset string);
  component_total_count : gmap string Z;
  tld_components : gmap string (list string)
}.

Definition empty_indexes : indexes := Indexes ∅ ∅ ∅.

(** The default value of the [exclude_tlds] argument. *)
Definition default_exclude_tlds : gset string := {[ "it"; "jp"; "no" ]}.

(** Body of [for component in parts[:-1]]; a [defaultdict] read of a missing
    key yields the factory's value ([set()], [0], [[]]). *)
Definition record_component (tld : string) (ix : indexes) (component : string)
  : indexes :=
  if negb (Py.truthy component) then ix
  else
    Indexes
      (<[component := default ∅ (component_tlds ix !! component) ∪ {[tld]}]>
         (component_tlds ix))
      (<[component := default 0 (component_total_count ix !! component) + 1]>
         (component_total_count ix))
      (<[tld := default [] (tld_components ix !! tld) ++ [component]]>
         (tld_components ix)).

(** [line.lstrip('*').lstrip('!')] *)
Definition strip_markers (line : string) : string :=
  Py.lstrip "!" (Py.lstrip "*" line).

(** [[p for p in line.split('.') if p]] *)
Definition split_parts (line : string) : list string :=
  filter (λ p, Py.truthy p = true) (Py.split "."%char line).

(** Body of [for line in lines]; every [continue] returns the indexes
    unchanged. *)
Definition parse_line (exclude_tlds : gset string) (ix : indexes) (line : string)
  : indexes :=
  let line := Py.strip line in
  if negb (Py.truthy line) || Py.startswith line "//" then ix
  else
    let line := strip_markers line in
    let parts := split_parts line in
    if (length parts <? 2)%nat then ix
    else
      match last parts with
      | None => ix (* not reached: [parts] has two elements or more *)
      | Some tld =>
          if decide (tld ∈ exclude_tlds) then ix
          else foldl (record_component tld) ix
                     (take (length parts - 1) parts)
      end.

Definition parse_domains (lines : list string) (exclude_tlds : gset string)
  : indexes :=
  foldl (parse_line exclude_tlds) empty_indexes lines.

(** ** [calculate_frequencies] *)

Definition calculate_frequencies
    (component_tlds : gmap string (gset string))
    (component_total_count : gmap string Z)
  : gmap string Z * gmap string Z :=
  let total_freq := component_total_count in
  let unique_tld_freq := (λ tlds : gset string, Z.of_nat (size tlds)) <$> component_tlds in
  (total_freq, unique_tld_freq).

(** ** The report writers *)

Inductive json :=
| JInt (n : Z)
| JStr (s : string)
| JList (l : list json)
| JObj (fields : list (string * json)).

(** What a run leaves in a file: the rows handed to the CSV writer, or the
    value handed to [json.dump]. *)
Inductive file_content :=
| Csv (header : list string) (rows : list (string * Z))
| Json (value : json).

Record world := World {
  files : gmap string file_content;
  console : list string
}.

(** Computations that print, write files and may raise. *)
Definition M (A : Type) : Type := world → (exn + A) * world.

Global Instance M_ret : MRet M := λ A x w, (inr x, w).
Global Instance M_bind : MBind M := λ A B f m w,
  match m w with
  | (inl e, w') => (inl e, w')
  | (inr x, w') => f x w'
  end.

Definition raise {A} (e : exn) : M A := λ w, (inl e, w).

Definition lift {A} (r : exn + A) : M A :=
  match r with inl e => raise e | inr x => mret x end.

Definition print (s : string) : M () :=
  λ w, (inr (), World (files w) (console w ++ [s])).

(** [open(filename, 'w')] followed by the writes: the file is replaced. *)
Definition write_file (filename : string) (c : file_content) : M () :=
  λ w, (inr (), World (<[filename := c]> (files w)) (console w)).

Fixpoint for_each {A} (l : list A) (body : A → M ()) : M () :=
  match l with
  | [] => mret ()
  | x :: l' => body x ;; for_each l' body
  end.

(** The sort key [lambda x: (-x[1], x[0])] of the ranked tables. *)
Definition rank_key (x : string * Z) : Z * string := (- x.2, x.1).

(** [sorted(data.items(), key=lambda x: (-x[1], x[0]))] *)
Definition ranked (data : gmap string Z) : list (string * Z) :=
  Py.sorted Py.tuple_ltb rank_key (map_to_list data).

Definition written (n : nat) (filename : string) : string :=
  "Written " +:+ pretty n +:+ " entries to " +:+ filename.

Definition write_csv (filename : string) (data : gmap string Z) : M () :=
  let sorted_data := ranked data in
  write_file filename (Csv ["string"; "frequency"] sorted_data) ;;
  print (written (length sorted_data) filename).

(** [component_total_count[x]] on the [defaultdict(int)]. *)
Definition count_of (component_total_count : gmap string Z) (x : string) : Z :=
  default 0 (component_total_count !! x).

(** The sort key [lambda x: (-component_total_count[x], x)]. *)
Definition count_key (component_total_count : gmap string Z) (x : string)
  : Z * string :=
  (- count_of component_total_count x, x).

Definition write_json_string_to_tlds (filename : string)
    (component_tlds : gmap string (gset string))
    (component_total_count : gmap string Z) : M () :=
  let sorted_components :=
    Py.sorted Py.tuple_ltb (count_key component_total_count)
              (elements (dom component_tlds)) in
  let data :=
    (λ component,
       (component,
        JObj [("count", JInt (count_of component_total_count component));
              ("tlds",
               JList (JStr <$> Py.sorted String.ltb id
                        (elements (default ∅ (component_tlds !! component)))))]))
    <$> sorted_components in
  write_file filename (Json (JObj data)) ;;
  print (written (length data) filename).

Definition write_json_tld_to_strings (filename : string)
    (tld_components : gmap string (list string))
    (component_total_count : gmap string Z) : M () :=
  let data :=
    (λ tld,
       let unique_components :=
         elements (list_to_set (default [] (tld_components !! tld)) : gset string) in
       let sorted_components :=
         Py.sorted Py.tuple_ltb (count_key component_total_count)
                   unique_components in
       (tld, JList (JStr <$> sorted_components)))
    <$> Py.sorted String.ltb id (elements (dom tld_components)) in
  write_file filename (Json (JObj data)) ;;
  print (written (length data) filename).

(** ** [main] *)

Definition print_top10 (freq : gmap string Z) : M () :=
  for_each (take 10 (ranked freq))
           (λ '(component, freq), print ("  " +:+ component +:+ ": " +:+ pretty freq)).

(** [fetch_psl()] returns what the network answers: [response] is the
    decoded text, or the exception raised on the way. *)
Definition fetch_psl (response : exn + string) : M string := lift response.

Definition main (response : exn + string) : M () :=
  print "Fetching Public Suffix List..." ;;
  psl_content ← fetch_psl response ;
  print "Extracting ICANN domains section..." ;;
  icann_lines ← lift (extract_icann_domains psl_content) ;
  print ("Found " +:+ pretty (length icann_lines) +:+ " lines in ICANN section") ;;
  print "Parsing domains (excluding .it, .jp, .no)..." ;;
  let ix := parse_domains icann_lines default_exclude_tlds in
  print ("Found " +:+ pretty (size (component_tlds ix)) +:+ " unique components") ;;
  print ("Found " +:+ pretty (size (tld_components ix)) +:+ " unique TLDs") ;;
  print "Calculating frequencies..." ;;
  let '(total_freq, unique_tld_freq) :=
    calculate_frequencies (component_tlds ix) (component_total_count ix) in
  print (String nl "Writing output files...") ;;
  write_csv "sld_popularity_total.csv" total_freq ;;
  write_csv "sld_popularity_unique_tld.csv" unique_tld_freq ;;
  print (String nl "Writing JSON files...") ;;
  write_json_string_to_tlds "sld_string_to_tlds.json"
    (component_tlds ix) (component_total_count ix) ;;
  write_json_tld_to_strings "sld_tld_to_strings.json"
    (tld_components ix) (component_total_count ix) ;;
  print (String nl "Top 10 most popular components (total):") ;;
  print_top10 total_freq ;;
  print (String nl "Top 10 most popular components (unique TLD):") ;;
  print_top10 unique_tld_freq ;;
  print (String nl "Analysis complete!").

Definition empty_world : world := World ∅ [].

(** ** Vocabulary of the statements *)

(** How the loop of [extract_icann_domains] reads a line: as a start marker
    line when it holds the start marker, as an end marker line when it holds
    the end marker and not the start marker (the [elif]). *)
Definition is_start_line (line : string) : bool :=
  Py.contains start_marker line.

Definition is_end_line (line : string) : bool :=
  negb (Py.contains start_marker line) && Py.contains end_marker line.

(** The section extractor as the specification words it: the first line
    holding the start marker, the first line after it holding the end
    marker, and the lines strictly between the two. *)
Definition extract_first_occurrences (text : string) : exn + list string :=
  let lines := Py.split nl text in
  match list_find (λ l, Py.contains start_marker l = true) lines with
  | None => inl markers_error
  | Some (i, _) =>
      let after := drop (S i) lines in
      match list_find (λ l, Py.contains end_marker l = true) after with
      | None => inl markers_error
      | Some (j, _) => inr (take j after)
      end
  end.

(** The three shapes a text can have, as the loop sees it. *)
Inductive shape (lines : list string) : Type :=
| NoEnd :
    Forall (λ l, is_end_line l = false) lines → shape lines
| NoStart pre el post :
    lines = pre ++ el :: post →
    Forall (λ l, is_start_line l = false ∧ is_end_line l = false) pre →
    is_end_line el = true → shape lines
| Section_ pre sl section el post :
    lines = pre ++ sl :: section ++ el :: post →
    Forall (λ l, is_end_line l = false) pre →
    is_start_line sl = true →
    Forall (λ l, is_start_line l = false ∧ is_end_line l = false) section →
    is_end_line el = true → shape lines.

(** Joins lines with newlines, the inverse of [split('\n')]. *)
Fixpoint join_lines (lines : list string) : string :=
  match lines with
  | [] => ""
  | [l] => l
  | l :: rest => l +:+ String nl (join_lines rest)
  end.

(** The markup removal as the specification words it: at most one leading
    wildcard marker, then at most one leading exception marker. *)
Definition strip_one (c : ascii) (s : string) : string :=
  match s with
  | EmptyString => EmptyString
  | String d s' => if Ascii.eqb d c then s' else s
  end.

Definition strip_markers_at_most_one (line : string) : string :=
  strip_one "!" (strip_one "*" line).

Fixpoint repeat_char (c : ascii) (n : nat) : string :=
  match n with
  | O => EmptyString
  | S n' => String c (repeat_char c n')
  end.

(** The labels the parser keeps of a raw line; none for a blank line or a
    comment. *)
Definition line_labels (line : string) : option (list string) :=
  let line := Py.strip line in
  if negb (Py.truthy line) || Py.startswith line "//" then None
  else Some (split_parts (strip_markers line)).

(** The TLD of a raw line: its last label. *)
Definition line_tld (line : string) : option string :=
  line_labels line ≫= last.

(** A line whose TLD is in the exclusion set. *)
Definition has_excluded_tld (exclude_tlds : gset string) (line : string) : bool :=
  match line_tld line with
  | Some tld => bool_decide (tld ∈ exclude_tlds)
  | None => false
  end.

(** The TLD and the components a raw line contributes, when the parser does
    not skip it. *)
Definition line_entry (exclude_tlds : gset string) (line : string)
  : option (string * list string) :=
  parts ← line_labels line;
  if (length parts <? 2)%nat then None
  else
    tld ← last parts;
    if decide (tld ∈ exclude_tlds) then None
    else Some (tld, take (length parts - 1) parts).

(** The occurrences [(tld, component)] a line and a line sequence
    contribute, in processing order. *)
Definition line_occurrences (exclude_tlds : gset string) (line : string)
  : list (string * string) :=
  match line_entry exclude_tlds line with
  | None => []
  | Some (tld, components) => (λ c, (tld, c)) <$> components
  end.

Definition occurrences (exclude_tlds : gset string) (lines : list string)
  : list (string * string) :=
  lines ≫= line_occurrences exclude_tlds.

Definition record_occurrence (ix : indexes) (o : string * string) : indexes :=
  record_component o.1 ix o.2.

Definition aggregate (occs : list (string * string)) : indexes :=
  foldl record_occurrence empty_indexes occs.

(** The TLDs recorded with component [c], and the components recorded under
    TLD [t], in order and with repeats. *)
Definition tlds_of (c : string) (occs : list (string * string)) : list string :=
  (filter (λ o, o.2 = c) occs).*1.

Definition components_of (t : string) (occs : list (string * string))
  : list string :=
  (filter (λ o, o.1 = t) occs).*2.

(** A [defaultdict] entry exists once something was recorded under the key. *)
Definition entry {A B} (f : list A → B) (l : list A) : option B :=
  match l with
  | [] => None
  | _ => Some (f l)
  end.

(** A label: non-empty and free of the separator. *)
Definition is_label (s : string) : Prop :=
  s ≠ "" ∧ Py.contains "." s = false.

(** Sum of the values of the count index, and of the lengths of the
    component lists. *)
Definition sum_counts (m : gmap string Z) : Z :=
  map_fold (λ _ v acc, v + acc) 0 m.

Definition sum_lengths (m : gmap string (list string)) : Z :=
  map_fold (λ _ l acc, Z.of_nat (length l) + acc) 0 m.

(** [x] may stand before [y] in the output of [sorted]: the key of [y] is
    not below the key of [x]. *)
Definition key_le {A K} (ltb : K → K → bool) (key : A → K) (x y : A) : Prop :=
  ltb (key y) (key x) = false.

(** The order of the ranked tables: higher value first, then the smaller
    string. *)
Definition row_before (r1 r2 : string * Z) : Prop :=
  r2.2 < r1.2 ∨ (r1.2 = r2.2 ∧ String.ltb r1.1 r2.1 = true).

(** A computation that never raises and only adds to the world. *)
Definition succeeds {A} (m : M A) : Prop :=
  ∀ w, ∃ x w', m w = (inr x, w').

(** The part of [main] that follows the section extraction. *)
Definition report (icann_lines : list string) : M () :=
  print ("Found " +:+ pretty (length icann_lines) +:+ " lines in ICANN section") ;;
  print "Parsing domains (excluding .it, .jp, .no)..." ;;
  let ix := parse_domains icann_lines default_exclude_tlds in
  print ("Found " +:+ pretty (size (component_tlds ix)) +:+ " unique components") ;;
  print ("Found " +:+ pretty (size (tld_components ix)) +:+ " unique TLDs") ;;
  print "Calculating frequencies..." ;;
  let '(total_freq, unique_tld_freq) :=
    calculate_frequencies (component_tlds ix) (component_total_count ix) in
  print (String nl "Writing output files...") ;;
  write_csv "sld_popularity_total.csv" total_freq ;;
  write_csv "sld_popularity_unique_tld.csv" unique_tld_freq ;;
  print (String nl "Writing JSON files...") ;;
  write_json_string_to_tlds "sld_string_to_tlds.json"
    (component_tlds ix) (component_total_count ix) ;;
  write_json_tld_to_strings "sld_tld_to_strings.json"
    (tld_components ix) (component_total_count ix) ;;
  print (String nl "Top 10 most popular components (total):") ;;
  print_top10 total_freq ;;
  print (String nl "Top 10 most popular components (unique TLD):") ;;
  print_top10 unique_tld_freq ;;
  print (String nl "Analysis complete!").

(** ** Vocabulary of the further properties *)

(** A string made of whitespace only. *)
Fixpoint all_space (s : string) : bool :=
  match s with
  | EmptyString => true
  | String c s' => Py.isspace c && all_space s'
  end.

(** The four ways [parse_line] reaches a [continue]: a blank line, a
    comment, fewer than two labels, an excluded TLD. *)
Definition skipped (exclude_tlds : gset string) (line : string) : Prop :=
  Py.strip line = "" ∨
  Py.startswith (Py.strip line) "//" = true ∨
  (length (split_parts (strip_markers (Py.strip line))) < 2)%nat ∨
  ∃ tld, last (split_parts (strip_markers (Py.strip line))) = Some tld ∧
         tld ∈ exclude_tlds.

(** The order of the JSON reports on components: higher count first, then
    the smaller string. *)
Definition count_before (cc : gmap string Z) (c1 c2 : string) : Prop :=
  row_before (c1, count_of cc c1) (c2, count_of cc c2).

Definition string_lt (a b : string) : Prop := String.ltb a b = true.

(** [m] never raises, and all it does to the files is to lay the files
    [out] over the ones that were there. *)
Definition overlays (m : M ()) (out : gmap string file_content) : Prop :=
  ∀ w, ∃ w', m w = (inr (), w') ∧ files w' = out ∪ files w.

(** The names of the four files a run writes. *)
Definition output_names : gset string :=
  {[ "sld_popularity_total.csv"; "sld_popularity_unique_tld.csv";
     "sld_string_to_tlds.json"; "sld_tld_to_strings.json" ]}.

(** * Facts about the string primitives *)

Section string_facts.

Lemma string_app_cons c (s t : string) : String c s +:+ t = String c (s +:+ t).
Proof. reflexivity. Qed.

Lemma string_app_nil_r (s : string) : s +:+ "" = s.
Proof. induction s as [|c s IH]; [done|]. by rewrite string_app_cons, IH. Qed.

Lemma string_app_assoc (s t u : string) : (s +:+ t) +:+ u = s +:+ (t +:+ u).
Proof. induction s as [|c s IH]; [done|]. by rewrite !string_app_cons, IH. Qed.

Lemma startswith_spec s p :
  Py.startswith s p = true ↔ ∃ r, s = p +:+ r.
Proof.
  revert s. induction p as [|a p IH]; intros s; simpl.
  - split; [eauto|done].
  - destruct s as [|c s].
    + split; [done|]. intros [r Hr]. by rewrite string_app_cons in Hr.
    + destruct (Ascii.eqb_spec c a) as [->|Hne].
      * rewrite IH. split; intros [r Hr]; exists r.
        -- by rewrite string_app_cons, Hr.
        -- rewrite string_app_cons in Hr. by simplify_eq.
      * split; [done|]. intros [r Hr]. rewrite string_app_cons in Hr.
        by simplify_eq.
Qed.

Lemma contains_spec sub s :
  Py.contains sub s = true ↔ ∃ a b, s = a +:+ sub +:+ b.
Proof.
  induction s as [|c s IH]; simpl.
  - rewrite orb_false_r, startswith_spec. split.
    + intros [r Hr]. by exists "", r.
    + intros ([|??] & b & Hb); [by exists b|]. by rewrite string_app_cons in Hb.
  - rewrite orb_true_iff, startswith_spec, IH. split.
    + intros [[r Hr]|(a & b & ->)]; [by exists "", r|].
      by exists (String c a), b.
    + intros ([|c' a] & b & Hb); [left; by exists b|].
      rewrite string_app_cons in Hb. simplify_eq. right. by exists a, b.
Qed.

Lemma contains_app sub a s b :
  Py.contains sub s = true → Py.contains sub (a +:+ s +:+ b) = true.
Proof.
  rewrite !contains_spec. intros (a' & b' & ->).
  exists (a +:+ a'), (b' +:+ b). by rewrite !string_app_assoc.
Qed.

Lemma split_nonempty sep s : Py.split sep s ≠ [].
Proof.
  destruct s as [|c s]; simpl; [done|].
  destruct (Ascii.eqb c sep); [done|]. by destruct (Py.split sep s).
Qed.

(** The first piece of a split is a prefix of the text. *)
Lemma split_head_prefix sep s w ws :
  Py.split sep s = w :: ws → ∃ b, s = w +:+ b.
Proof.
  revert w ws. induction s as [|c s IH]; intros w ws; simpl.
  - intros [= <- <-]. by exists "".
  - destruct (Ascii.eqb c sep).
    + intros [= <- <-]. by exists (String c s).
    + destruct (Py.split sep s) as [|w' ws'] eqn:Hsp;
        [by destruct (split_nonempty sep s)|].
      intros [= <- <-]. destruct (IH _ _ eq_refl) as [b ->]. by exists b.
Qed.

(** Every piece of a split is a substring of the text. *)
Lemma split_elem_substring sep s l :
  l ∈ Py.split sep s → ∃ a b, s = a +:+ l +:+ b.
Proof.
  revert l. induction s as [|c s IH]; intros l; simpl.
  - intros ->%list_elem_of_singleton. by exists "", "".
  - destruct (Ascii.eqb c sep).
    + intros [->|Hin]%elem_of_cons; [by exists "", (String c s)|].
      destruct (IH _ Hin) as (a & b & ->). by exists (String c a), b.
    + destruct (Py.split sep s) as [|w ws] eqn:Hsp;
        [by destruct (split_nonempty sep s)|].
      intros [->|Hin]%elem_of_cons.
      * destruct (split_head_prefix _ _ _ _ Hsp) as [b ->]. by exists "", b.
      * destruct (IH l) as (a & b & ->); [by right|].
        by exists (String c a), b.
Qed.

(** No piece of a split holds the separator. *)
Lemma split_elem_no_sep sep s l :
  l ∈ Py.split sep s → Py.char_in sep l = false.
Proof.
  revert l. induction s as [|c s IH]; intros l; simpl.
  - by intros ->%list_elem_of_singleton.
  - destruct (Ascii.eqb_spec c sep) as [->|Hne].
    + intros [->|Hin]%elem_of_cons; [done|]. by apply IH.
    + destruct (Py.split sep s) as [|w ws] eqn:Hsp;
        [by destruct (split_nonempty sep s)|].
      intros [->|Hin]%elem_of_cons.
      * simpl. rewrite (IH w) by by left.
        rewrite orb_false_r. apply Ascii.eqb_neq. congruence.
      * apply IH. by right.
Qed.

Lemma contains_char c s :
  Py.contains (String c "") s = Py.char_in c s.
Proof.
  induction s as [|d s IH]; simpl; [done|].
  rewrite IH. rewrite (Ascii.eqb_sym d c).
  destruct (Ascii.eqb c d); [|done]. by destruct s.
Qed.

End string_facts.


(** * The section extractor *)

Section extractor.

Implicit Types (lines pre post section : list string) (idx : nat).

Lemma find_markers_no_end lines idx st :
  Forall (λ l, is_end_line l = false) lines →
  (find_markers lines idx st).2 = None.
Proof.
  intros H. revert idx st.
  induction H as [|l lines Hl _ IH]; intros idx st; simpl; [done|].
  unfold is_end_line in Hl.
  destruct (Py.contains start_marker l); simpl in *; [apply IH|].
  rewrite Hl. apply IH.
Qed.

Lemma find_markers_skip pre rest idx st :
  Forall (λ l, is_start_line l = false ∧ is_end_line l = false) pre →
  find_markers (pre ++ rest) idx st = find_markers rest (idx + length pre) st.
Proof.
  intros H. revert idx.
  induction H as [|l pre [Hs He] _ IH]; intros idx; simpl.
  - by rewrite Nat.add_0_r.
  - unfold is_start_line, is_end_line in *. rewrite Hs in *. simpl in He.
    rewrite He, IH. f_equal. lia.
Qed.

Lemma find_markers_end el post idx st :
  is_end_line el = true → find_markers (el :: post) idx st = (st, Some idx).
Proof.
  unfold is_end_line. simpl. intros [Hs He]%andb_true_iff.
  apply negb_true_iff in Hs. by rewrite Hs, He.
Qed.

Lemma find_markers_start sl rest idx st :
  is_start_line sl = true →
  find_markers (sl :: rest) idx st = find_markers rest (S idx) (Some (S idx)).
Proof. unfold is_start_line. simpl. by intros ->. Qed.

(** Up to the first end marker line, the loop only moves [start_idx]. *)
Lemma find_markers_before_end pre rest idx st :
  Forall (λ l, is_end_line l = false) pre →
  ∃ st', find_markers (pre ++ rest) idx st
         = find_markers rest (idx + length pre) st'.
Proof.
  intros H. revert idx st.
  induction H as [|l pre Hl _ IH]; intros idx st; simpl.
  - exists st. by rewrite Nat.add_0_r.
  - unfold is_end_line in Hl.
    destruct (Py.contains start_marker l); simpl in Hl.
    + destruct (IH (S idx) (Some (S idx))) as [st' ->].
      exists st'. f_equal. lia.
    + rewrite Hl. destruct (IH (S idx) st) as [st' ->].
      exists st'. f_equal. lia.
Qed.

Lemma shape_total lines : shape lines.
Proof.
  induction lines as [|l lines IH]; [by apply NoEnd|].
  destruct (is_end_line l) eqn:He; [by apply (NoStart _ [] l lines)|].
  destruct (is_start_line l) eqn:Hs.
  - destruct IH as [H|pre el post -> Hpre Hel|pre sl sec el post -> Hpre Hsl Hsec Hel].
    + apply NoEnd. by constructor.
    + by apply (Section_ _ [] l pre el post).
    + apply (Section_ _ (l :: pre) sl sec el post); auto.
  - destruct IH as [H|pre el post -> Hpre Hel|pre sl sec el post -> Hpre Hsl Hsec Hel].
    + apply NoEnd. by constructor.
    + apply (NoStart _ (l :: pre) el post); auto.
    + apply (Section_ _ (l :: pre) sl sec el post); auto.
Qed.

Lemma slice_middle {A} (pre section post : list A) x :
  Py.slice (pre ++ x :: section ++ post)
           (S (length pre)) (S (length pre) + length section) = section.
Proof.
  unfold Py.slice.
  replace (pre ++ x :: section ++ post) with ((pre ++ x :: section) ++ post)
    by by rewrite <- app_assoc.
  rewrite take_app_length' by (rewrite length_app; simpl; lia).
  replace (pre ++ x :: section) with ((pre ++ [x]) ++ section)
    by by rewrite <- app_assoc.
  rewrite drop_app_length'; [done|]. rewrite length_app. simpl. lia.
Qed.

Lemma extract_lines_section pre sl section el post content :
  Py.split nl content = pre ++ sl :: section ++ el :: post →
  Forall (λ l, is_end_line l = false) pre →
  is_start_line sl = true →
  Forall (λ l, is_start_line l = false ∧ is_end_line l = false) section →
  is_end_line el = true →
  extract_icann_domains content = inr section.
Proof.
  intros Hlines Hpre Hsl Hsec Hel. unfold extract_icann_domains.
  rewrite Hlines.
  destruct (find_markers_before_end pre (sl :: section ++ el :: post) 0 None Hpre)
    as [st' ->].
  rewrite find_markers_start, find_markers_skip, find_markers_end by done.
  rewrite Nat.add_0_l. cbv beta iota. by rewrite slice_middle.
Qed.

Lemma extract_lines_no_end content :
  Forall (λ l, is_end_line l = false) (Py.split nl content) →
  extract_icann_domains content = inl markers_error.
Proof.
  intros H. unfold extract_icann_domains.
  pose proof (find_markers_no_end _ 0 None H) as Hn.
  destruct (find_markers _ 0 None) as [[s|] e]; simpl in Hn; by subst.
Qed.

Lemma extract_lines_no_start pre el post content :
  Py.split nl content = pre ++ el :: post →
  Forall (λ l, is_start_line l = false ∧ is_end_line l = false) pre →
  is_end_line el = true →
  extract_icann_domains content = inl markers_error.
Proof.
  intros Hlines Hpre Hel. unfold extract_icann_domains.
  by rewrite Hlines, find_markers_skip, find_markers_end.
Qed.

End extractor.

Section extractor_theorems.

Lemma extract_icann_domains_shape content :
  match shape_total (Py.split nl content) with
  | NoEnd _ _ | NoStart _ _ _ _ _ _ _ =>
      extract_icann_domains content = inl markers_error
  | Section_ _ _ _ section _ _ _ _ _ _ _ =>
      extract_icann_domains content = inr section
  end.
Proof.
  destruct (shape_total _) as [H|pre el post Hl Hpre Hel|pre sl sec el post Hl Hpre Hsl Hsec Hel].
  - by apply extract_lines_no_end.
  - by eapply extract_lines_no_start.
  - by eapply extract_lines_section.
Qed.

(** C1 (as amended): the extractor scans up to the first line that holds
    the end marker and not the start marker. It returns [section] exactly
    when the lines read [pre ++ sl :: section ++ el :: post] with [el] that
    first end marker line and [sl] the last start marker line before it, and
    raises the markers-not-found error exactly when there is no end marker
    line or no start marker line precedes the first one. *)
Theorem extract_icann_domains_section content :
  (∀ section,
     extract_icann_domains content = inr section ↔
     ∃ pre sl el post,
       Py.split nl content = pre ++ sl :: section ++ el :: post ∧
       Forall (λ l, is_end_line l = false) pre ∧
       is_start_line sl = true ∧
       Forall (λ l, is_start_line l = false ∧ is_end_line l = false) section ∧
       is_end_line el = true) ∧
  (∀ e,
     extract_icann_domains content = inl e ↔
     e = markers_error ∧
     (Forall (λ l, is_end_line l = false) (Py.split nl content) ∨
      ∃ pre el post,
        Py.split nl content = pre ++ el :: post ∧
        Forall (λ l, is_start_line l = false ∧ is_end_line l = false) pre ∧
        is_end_line el = true)).
Proof.
  pose proof (extract_icann_domains_shape content) as Hshape.
  split.
  - intros section. split.
    + intros Hex.
      destruct (shape_total _) as [H|pre el post Hl Hpre Hel|pre sl sec el post Hl Hpre Hsl Hsec Hel];
        try congruence.
      assert (sec = section) as -> by congruence.
      by exists pre, sl, el, post.
    + intros (pre & sl & el & post & Hl & Hpre & Hsl & Hsec & Hel).
      by eapply extract_lines_section.
  - intros e. split.
    + intros Hex.
      destruct (shape_total _) as [H|pre el post Hl Hpre Hel|pre sl sec el post Hl Hpre Hsl Hsec Hel];
        try congruence.
      * split; [congruence|by left].
      * split; [congruence|]. right. by exists pre, el, post.
    + intros [-> [H|(pre & el & post & Hl & Hpre & Hel)]].
      * by apply extract_lines_no_end.
      * by eapply extract_lines_no_start.
Qed.

(** C1 (as stated) fails: with two start marker lines before the end marker
    line the code honors the last one, not the first. *)
Lemma extract_icann_domains_honors_last_start :
  extract_icann_domains
    (join_lines [start_marker; "aa"; start_marker; "bb"; end_marker])
  = inr ["bb"] ∧
  extract_first_occurrences
    (join_lines [start_marker; "aa"; start_marker; "bb"; end_marker])
  = inr ["aa"; start_marker; "bb"] ∧
  extract_icann_domains
    (join_lines [start_marker; "aa"; start_marker; "bb"; end_marker])
  ≠ extract_first_occurrences
    (join_lines [start_marker; "aa"; start_marker; "bb"; end_marker]).
Proof. vm_compute. by repeat split. Qed.

(** An end marker line ahead of the start marker line ends the scan: the
    code raises although a complete section follows. *)
Example extract_icann_domains_end_first :
  extract_icann_domains
    (join_lines [end_marker; start_marker; "aa"; end_marker])
  = inl markers_error ∧
  extract_first_occurrences
    (join_lines [end_marker; start_marker; "aa"; end_marker])
  = inr ["aa"].
Proof. vm_compute. by split. Qed.

(** With one start marker line followed by one end marker line the two
    readings agree. *)
Example extract_icann_domains_plain :
  extract_icann_domains
    (join_lines ["// header"; start_marker; "ac"; "com.ac"; end_marker; "tail"])
  = inr ["ac"; "com.ac"].
Proof. by vm_compute. Qed.

Lemma no_end_marker_lines content :
  Py.contains end_marker content = false →
  Forall (λ l, is_end_line l = false) (Py.split nl content).
Proof.
  intros Hc. apply Forall_forall. intros l Hl.
  destruct (split_elem_substring _ _ _ Hl) as (a & b & Heq).
  unfold is_end_line. apply andb_false_iff. right.
  destruct (Py.contains end_marker l) eqn:Hcl; [|done].
  apply (contains_app _ a _ b) in Hcl. congruence.
Qed.

End extractor_theorems.

(** * The run: errors and output files *)

Section run.

Lemma succeeds_ret {A} (x : A) : succeeds (mret x).
Proof. intros w. by exists x, w. Qed.

Lemma succeeds_bind {A B} (m : M A) (f : A → M B) :
  succeeds m → (∀ x, succeeds (f x)) → succeeds (m ≫= f).
Proof.
  intros Hm Hf w. destruct (Hm w) as (x & w' & Hx).
  destruct (Hf x w') as (y & w'' & Hy). exists y, w''.
  unfold mbind, M_bind. by rewrite Hx.
Qed.

Lemma succeeds_print s : succeeds (print s).
Proof. intros w. by eexists _, _. Qed.

Lemma succeeds_write_file f c : succeeds (write_file f c).
Proof. intros w. by eexists _, _. Qed.

Lemma succeeds_for_each {A} (l : list A) body :
  (∀ x, succeeds (body x)) → succeeds (for_each l body).
Proof.
  intros Hb. induction l as [|x l IH]; simpl; [apply succeeds_ret|].
  apply succeeds_bind; auto.
Qed.

Lemma succeeds_write_csv f data : succeeds (write_csv f data).
Proof.
  apply succeeds_bind; [apply succeeds_write_file|]. intros _.
  apply succeeds_print.
Qed.

Lemma succeeds_write_json_string_to_tlds f ct cc :
  succeeds (write_json_string_to_tlds f ct cc).
Proof.
  apply succeeds_bind; [apply succeeds_write_file|]. intros _.
  apply succeeds_print.
Qed.

Lemma succeeds_write_json_tld_to_strings f tc cc :
  succeeds (write_json_tld_to_strings f tc cc).
Proof.
  apply succeeds_bind; [apply succeeds_write_file|]. intros _.
  apply succeeds_print.
Qed.

Lemma succeeds_print_top10 freq : succeeds (print_top10 freq).
Proof. apply succeeds_for_each. intros [c v]. apply succeeds_print. Qed.

Lemma main_unfold response :
  main response =
  (print "Fetching Public Suffix List..." ;;
   psl_content ← fetch_psl response ;
   print "Extracting ICANN domains section..." ;;
   icann_lines ← lift (extract_icann_domains psl_content) ;
   report icann_lines).
Proof. reflexivity. Qed.

Ltac succeeds_step :=
  lazymatch goal with
  | |- succeeds (mbind _ _) => apply succeeds_bind; [|intros _]
  | |- succeeds (print _) => apply succeeds_print
  | |- succeeds (write_csv _ _) => apply succeeds_write_csv
  | |- succeeds (write_json_string_to_tlds _ _ _) =>
      apply succeeds_write_json_string_to_tlds
  | |- succeeds (write_json_tld_to_strings _ _ _) =>
      apply succeeds_write_json_tld_to_strings
  | |- succeeds (print_top10 _) => apply succeeds_print_top10
  end.

Lemma succeeds_report icann_lines : succeeds (report icann_lines).
Proof.
  unfold report, calculate_frequencies. cbv beta iota zeta.
  repeat succeeds_step.
Qed.

(** Whenever [main] raises, it has written no file: the only raising steps
    are the fetch and the section extraction, both ahead of every writer. *)
Lemma main_error_writes_nothing response w e :
  (main response w).1 = inl e → files (main response w).2 = files w.
Proof.
  rewrite main_unfold. unfold mbind, M_bind, fetch_psl, print at 1. simpl.
  destruct response as [e'|content]; simpl; [done|].
  destruct (extract_icann_domains content) as [e'|icann_lines]; simpl; [done|].
  destruct (succeeds_report icann_lines
              (World (files w)
                 ((console w ++ ["Fetching Public Suffix List..."]) ++
                  ["Extracting ICANN domains section..."])))
    as ([] & w' & ->).
  done.
Qed.

(** C8: a text without the end marker makes the run raise the
    markers-not-found error and leaves the files as they were; more
    generally no run that raises has written a file. *)
Theorem main_missing_end_marker content w :
  Py.contains end_marker content = false →
  (main (inr content) w).1 = inl markers_error ∧
  files (main (inr content) w).2 = files w ∧
  (∀ response e,
     (main response w).1 = inl e → files (main response w).2 = files w).
Proof.
  intros Hc.
  assert ((main (inr content) w).1 = inl markers_error) as Hmain.
  { rewrite main_unfold. unfold mbind, M_bind, fetch_psl, print at 1. simpl.
    by rewrite (extract_lines_no_end content (no_end_marker_lines _ Hc)). }
  split; [done|]. split; [by eapply main_error_writes_nothing|].
  intros response e. apply main_error_writes_nothing.
Qed.

Lemma main_missing_end_marker_witness :
  (main (inr (join_lines [start_marker; "com.ac"; "ac"])) empty_world).1
    = inl markers_error ∧
  files (main (inr (join_lines [start_marker; "com.ac"; "ac"])) empty_world).2
    = ∅.
Proof.
  destruct (main_missing_end_marker
              (join_lines [start_marker; "com.ac"; "ac"]) empty_world)
    as (H1 & H2 & _); [by vm_compute|].
  by split.
Defined.

End run.

(** * Markup removal *)

Section markers.

Lemma lstrip_char_repeat c n rest :
  Py.startswith rest (String c "") = false →
  Py.lstrip (String c "") (repeat_char c n +:+ rest) = rest.
Proof.
  intros Hrest. induction n as [|n IH]; simpl.
  - destruct rest as [|d rest]; [done|]. simpl in *.
    rewrite orb_false_r. by destruct (Ascii.eqb d c).
  - by rewrite Ascii.eqb_refl.
Qed.

Lemma lstrip_char_spec c s :
  Py.startswith (Py.lstrip (String c "") s) (String c "") = false ∧
  ∃ n, s = repeat_char c n +:+ Py.lstrip (String c "") s.
Proof.
  induction s as [|d s [IH1 [n IH2]]]; simpl.
  - split; [done|]. by exists 0%nat.
  - rewrite orb_false_r. destruct (Ascii.eqb_spec d c) as [->|Hne].
    + split; [done|]. exists (S n). simpl. by rewrite string_app_cons, <- IH2.
    + split; [|by exists 0%nat].
      simpl. by apply Ascii.eqb_neq in Hne as ->.
Qed.

Lemma startswith_repeat_other c d n rest :
  c ≠ d → (n = 0%nat → Py.startswith rest (String d "") = false) →
  Py.startswith (repeat_char c n +:+ rest) (String d "") = false.
Proof.
  intros Hne Hrest. destruct n as [|n]; [by apply Hrest|].
  simpl. by apply Ascii.eqb_neq in Hne as ->.
Qed.

(** C2 (as amended): the markup removal drops the whole run of leading '*'
    characters and then the whole run of leading '!' characters, wildcard
    run first. The result is the unique remainder of such a decomposition,
    and it is what stripping at most one of each gives whenever neither run
    is longer than one character. *)
Theorem strip_markers_runs line :
  (∃ n m,
     line = repeat_char "*" n +:+ repeat_char "!" m +:+ strip_markers line) ∧
  Py.startswith (strip_markers line) "!" = false ∧
  (∀ n m rest,
     line = repeat_char "*" n +:+ repeat_char "!" m +:+ rest →
     Py.startswith rest "!" = false →
     (m = 0%nat → Py.startswith rest "*" = false) →
     strip_markers line = rest ∧
     ((n ≤ 1)%nat → (m ≤ 1)%nat → strip_markers_at_most_one line = rest)).
Proof.
  unfold strip_markers. split; [|split].
  - destruct (lstrip_char_spec "*" line) as [_ [n Hn]].
    destruct (lstrip_char_spec "!" (Py.lstrip "*" line)) as [_ [m Hm]].
    exists n, m. by rewrite <- Hm.
  - apply lstrip_char_spec.
  - intros n m rest -> Hbang Hstar. split.
    + rewrite lstrip_char_repeat by by apply startswith_repeat_other.
      by apply lstrip_char_repeat.
    + intros Hn Hm. unfold strip_markers_at_most_one.
      assert (∀ s, Py.startswith s "!" = false → strip_one "!" s = s) as Hb.
      { intros [|d s]; simpl; [done|]. by destruct (Ascii.eqb d "!"). }
      assert (∀ s, Py.startswith s "*" = false → strip_one "*" s = s) as Hs.
      { intros [|d s]; simpl; [done|]. by destruct (Ascii.eqb d "*"). }
      destruct n as [|[|n]], m as [|[|m]]; try lia; simpl.
      * change ("" +:+ "" +:+ rest) with rest.
        rewrite Hs by auto. by apply Hb.
      * reflexivity.
      * change ("" +:+ "" +:+ rest) with rest. by apply Hb.
      * reflexivity.
Qed.

Lemma strip_markers_runs_witness :
  strip_markers "*!www.ck" = "www.ck" ∧
  strip_markers_at_most_one "*!www.ck" = "www.ck".
Proof.
  destruct (strip_markers_runs "*!www.ck") as (_ & _ & H).
  destruct (H 1%nat 1%nat "www.ck") as [H1 H2];
    [reflexivity | reflexivity | intros; discriminate |].
  split; [exact H1 | apply H2; lia].
Defined.

(** C2 (as stated) fails: of two leading '*' the code strips both, where
    stripping at most one leaves the second. *)
Lemma strip_markers_strips_every_star :
  strip_markers "**.sch.uk" = ".sch.uk" ∧
  strip_markers_at_most_one "**.sch.uk" = "*.sch.uk" ∧
  split_parts (strip_markers "**.sch.uk") = ["sch"; "uk"] ∧
  split_parts (strip_markers_at_most_one "**.sch.uk") = ["*"; "sch"; "uk"] ∧
  strip_markers "**.sch.uk" ≠ strip_markers_at_most_one "**.sch.uk".
Proof. vm_compute. by repeat split. Qed.

End markers.

(** * The parser as a fold over occurrences *)

Section parser.

Implicit Types (excl : gset string) (occs : list (string * string)).

Lemma parse_line_occurrences excl ix line :
  parse_line excl ix line = foldl record_occurrence ix (line_occurrences excl line).
Proof.
  unfold parse_line, line_occurrences, line_entry, line_labels.
  destruct (negb _ || _); simpl; [done|].
  destruct (length _ <? 2)%nat; simpl; [done|].
  destruct (last _) as [tld|]; simpl; [|done].
  destruct (decide _); simpl; [done|].
  by rewrite foldl_fmap.
Qed.

Lemma foldl_parse_line excl ix lines :
  foldl (parse_line excl) ix lines
  = foldl record_occurrence ix (occurrences excl lines).
Proof.
  unfold occurrences. revert ix.
  induction lines as [|line lines IH]; intros ix; simpl; [done|].
  by rewrite foldl_app, IH, parse_line_occurrences.
Qed.

Lemma parse_domains_aggregate lines excl :
  parse_domains lines excl = aggregate (occurrences excl lines).
Proof. apply foldl_parse_line. Qed.

Lemma truthy_nonempty s : Py.truthy s = true ↔ s ≠ "".
Proof. by destruct s. Qed.

Lemma split_parts_label line p : p ∈ split_parts line → is_label p.
Proof.
  unfold split_parts. intros [Ht Hin]%list_elem_of_filter.
  split; [by apply truthy_nonempty|].
  rewrite contains_char. by eapply split_elem_no_sep.
Qed.

(** What a line contributes: labels only, under a TLD that is not
    excluded. *)
Lemma line_entry_labels excl line tld components :
  line_entry excl line = Some (tld, components) →
  ∃ parts,
    line_labels line = Some parts ∧ parts = components ++ [tld] ∧
    components ≠ [] ∧ (tld ∉ excl) ∧
    is_label tld ∧ Forall is_label components.
Proof.
  unfold line_entry. destruct (line_labels line) as [parts|] eqn:Hl; simpl; [|done].
  destruct (length parts <? 2)%nat eqn:Hlen; [done|].
  apply Nat.ltb_ge in Hlen.
  destruct (last parts) as [t|] eqn:Hlast; simpl; [|done].
  destruct (decide _) as [|Hex]; [done|]. intros [= <- <-].
  apply last_Some in Hlast as [l' ->]. exists (l' ++ [t]).
  rewrite length_app in *. simpl in *.
  replace (length l' + 1 - 1)%nat with (length l') by lia.
  rewrite take_app_length.
  assert (∀ p, p ∈ l' ++ [t] → is_label p) as Hlab.
  { unfold line_labels in Hl. destruct (negb _ || _); [done|].
    injection Hl as <-. intros p. apply split_parts_label. }
  repeat split; try done.
  - destruct l'; [simpl in *; lia|done].
  - apply Hlab. set_solver.
  - apply Hlab. set_solver.
  - apply Forall_forall. intros p Hp. apply Hlab. set_solver.
Qed.

Lemma line_occurrences_labels excl line o :
  o ∈ line_occurrences excl line → (o.1 ∉ excl) ∧ is_label o.1 ∧ is_label o.2.
Proof.
  unfold line_occurrences.
  destruct (line_entry excl line) as [[tld comps]|] eqn:He; [|by intros ?%elem_of_nil].
  destruct (line_entry_labels _ _ _ _ He) as (parts & _ & _ & _ & Hex & Ht & Hc).
  intros (c & -> & Hin)%list_elem_of_fmap. simpl.
  rewrite Forall_forall in Hc. auto.
Qed.

Lemma occurrences_labels excl lines o :
  o ∈ occurrences excl lines → (o.1 ∉ excl) ∧ is_label o.1 ∧ is_label o.2.
Proof.
  unfold occurrences. intros (line & Ho & _)%list_elem_of_bind.
  by eapply line_occurrences_labels.
Qed.

Lemma occurrences_truthy excl lines :
  Forall (λ o, Py.truthy o.2 = true) (occurrences excl lines).
Proof.
  apply Forall_forall. intros o Ho. apply truthy_nonempty.
  by apply (occurrences_labels _ _ _ Ho).
Qed.

Lemma aggregate_snoc occs o :
  aggregate (occs ++ [o]) = record_occurrence (aggregate occs) o.
Proof. apply foldl_snoc. Qed.

Lemma record_occurrence_truthy ix t c :
  Py.truthy c = true →
  record_occurrence ix (t, c) =
  Indexes
    (<[c := default ∅ (component_tlds ix !! c) ∪ {[t]}]> (component_tlds ix))
    (<[c := default 0 (component_total_count ix !! c) + 1]>
       (component_total_count ix))
    (<[t := default [] (tld_components ix !! t) ++ [c]]> (tld_components ix)).
Proof. unfold record_occurrence, record_component. simpl. by intros ->. Qed.

Lemma entry_snoc {A B} (f : list A → B) l x :
  entry f (l ++ [x]) = Some (f (l ++ [x])).
Proof. by destruct l. Qed.

Lemma tlds_of_snoc c occs t c' :
  tlds_of c (occs ++ [(t, c')])
  = if decide (c' = c) then tlds_of c occs ++ [t] else tlds_of c occs.
Proof.
  unfold tlds_of. rewrite filter_app, fmap_app.
  rewrite filter_cons, filter_nil. simpl.
  destruct (decide (c' = c)); simpl; [done|by rewrite app_nil_r].
Qed.

Lemma components_of_snoc t occs t' c :
  components_of t (occs ++ [(t', c)])
  = if decide (t' = t) then components_of t occs ++ [c] else components_of t occs.
Proof.
  unfold components_of. rewrite filter_app, fmap_app.
  rewrite filter_cons, filter_nil. simpl.
  destruct (decide (t' = t)); simpl; [done|by rewrite app_nil_r].
Qed.

(** The three indexes in closed form. *)
Lemma aggregate_lookup occs :
  Forall (λ o, Py.truthy o.2 = true) occs →
  (∀ c, component_tlds (aggregate occs) !! c
        = entry (λ ts, list_to_set ts) (tlds_of c occs)) ∧
  (∀ c, component_total_count (aggregate occs) !! c
        = entry (λ ts, Z.of_nat (length ts)) (tlds_of c occs)) ∧
  (∀ t, tld_components (aggregate occs) !! t
        = entry (λ cs, cs) (components_of t occs)).
Proof.
  induction occs as [|[t c] occs IH] using rev_ind; intros Hall.
  - repeat split; intros; apply lookup_empty.
  - apply Forall_app in Hall as [Hall Ho]. apply Forall_inv in Ho.
    destruct (IH Hall) as (IH1 & IH2 & IH3). simpl in Ho.
    rewrite aggregate_snoc, record_occurrence_truthy by done. simpl.
    repeat split.
    + intros c'. rewrite tlds_of_snoc, lookup_insert.
      case_decide as Hc; [subst c'|apply IH1].
      rewrite entry_snoc, IH1, list_to_set_snoc_L.
      by destruct (tlds_of c occs).
    + intros c'. rewrite tlds_of_snoc, lookup_insert.
      case_decide as Hc; [subst c'|apply IH2].
      rewrite entry_snoc, IH2, length_app. simpl.
      destruct (tlds_of c occs); simpl; f_equal; lia.
    + intros t'. rewrite components_of_snoc, lookup_insert.
      case_decide as Hc; [subst t'|apply IH3].
      rewrite entry_snoc, IH3. by destruct (components_of t occs).
Qed.

End parser.

(** * The indexes *)

Section indexes.

Implicit Types (excl : gset string) (occs : list (string * string)).

Lemma entry_Some {A B} (f : list A → B) l y :
  entry f l = Some y ↔ l ≠ [] ∧ y = f l.
Proof.
  destruct l; simpl; split.
  - done.
  - by intros [? _].
  - by intros [= <-].
  - by intros [_ ->].
Qed.

Lemma entry_is_Some {A B} (f : list A → B) l : is_Some (entry f l) ↔ l ≠ [].
Proof. destruct l; simpl; [|by split]. split; [by intros [??]|done]. Qed.

Lemma entry_perm {A B} (f : list A → B) l l' :
  l ≡ₚ l' → f l = f l' → entry f l = entry f l'.
Proof.
  intros Hp Hf. destruct l, l'; simpl; try done.
  - by apply Permutation_nil_cons in Hp.
  - symmetry in Hp. by apply Permutation_nil_cons in Hp.
  - by rewrite Hf.
Qed.

Lemma elem_of_tlds_of t c occs : t ∈ tlds_of c occs ↔ (t, c) ∈ occs.
Proof.
  unfold tlds_of. rewrite list_elem_of_fmap. split.
  - intros ([t' c'] & -> & [Hc Hin]%list_elem_of_filter). simpl in *. by subst.
  - intros Hin. exists (t, c). split; [done|]. by apply list_elem_of_filter.
Qed.

Lemma elem_of_components_of t c occs : c ∈ components_of t occs ↔ (t, c) ∈ occs.
Proof.
  unfold components_of. rewrite list_elem_of_fmap. split.
  - intros ([t' c'] & -> & [Hc Hin]%list_elem_of_filter). simpl in *. by subst.
  - intros Hin. exists (t, c). split; [done|]. by apply list_elem_of_filter.
Qed.

Lemma nonempty_elem {A} (l : list A) : l ≠ [] → ∃ x, x ∈ l.
Proof. destruct l as [|x l]; [done|]. exists x. by left. Qed.

Lemma parse_domains_lookup lines excl :
  let ix := parse_domains lines excl in
  let occs := occurrences excl lines in
  (∀ c, component_tlds ix !! c = entry (λ ts, list_to_set ts) (tlds_of c occs)) ∧
  (∀ c, component_total_count ix !! c
        = entry (λ ts, Z.of_nat (length ts)) (tlds_of c occs)) ∧
  (∀ t, tld_components ix !! t = entry (λ cs, cs) (components_of t occs)).
Proof.
  simpl. rewrite parse_domains_aggregate.
  apply aggregate_lookup, occurrences_truthy.
Qed.

Lemma size_list_to_set_le (l : list string) :
  (size (list_to_set l : gset string) ≤ length l)%nat.
Proof.
  induction l as [|x l IH].
  { by rewrite list_to_set_nil, size_empty. }
  rewrite list_to_set_cons, size_union_alt, size_singleton. simpl length.
  assert (list_to_set l ∖ {[x]} ⊆@{gset string} list_to_set l) as Hsub.
  { intros y Hy. by apply elem_of_difference in Hy as [Hy _]. }
  apply subseteq_size in Hsub. lia.
Qed.

(** C3: the scenario of the specification. The lines [ac] and [jp] leave
    every index as it is, and the three other lines give [com], [sch] and
    [educ] one TLD and one occurrence each. *)
Theorem parse_domains_scenario :
  parse_domains ["ac"; "com.ac"; "*.sch.uk"; "!educ.ar"; "jp"] {["jp"]}
  = Indexes
      {[ "com" := {["ac"]}; "sch" := {["uk"]}; "educ" := {["ar"]} ]}
      {[ "com" := 1; "sch" := 1; "educ" := 1 ]}
      {[ "ac" := ["com"]; "uk" := ["sch"]; "ar" := ["educ"] ]} ∧
  (∀ ix, parse_line {["jp"]} ix "ac" = ix) ∧
  (∀ ix, parse_line {["jp"]} ix "jp" = ix).
Proof.
  split; [by vm_compute|].
  split; intros ix; by rewrite parse_line_occurrences.
Qed.

(** C4: in the frequency views of a parse, the unique-TLD value of a
    component is the size of its TLD set and is at most its total value. *)
Theorem unique_tld_freq_le_total lines excl c v :
  let ix := parse_domains lines excl in
  let freqs := calculate_frequencies (component_tlds ix) (component_total_count ix) in
  freqs.2 !! c = Some v →
  ∃ tlds total,
    component_tlds ix !! c = Some tlds ∧ v = Z.of_nat (size tlds) ∧
    freqs.1 !! c = Some total ∧ v ≤ total.
Proof.
  simpl. destruct (parse_domains_lookup lines excl) as (H1 & H2 & _).
  rewrite lookup_fmap, H1, H2.
  destruct (tlds_of c (occurrences excl lines)) as [|t ts]; simpl; [done|].
  intros [= <-]. eexists _, _. repeat split.
  pose proof (size_list_to_set_le (t :: ts)). simpl in *. lia.
Qed.

Lemma unique_tld_freq_le_total_witness :
  ∃ tlds total,
    component_tlds (parse_domains ["co.uk"; "co.nz"; "co.co.nz"] ∅) !! "co"
      = Some tlds ∧
    2 = Z.of_nat (size tlds) ∧
    (calculate_frequencies
       (component_tlds (parse_domains ["co.uk"; "co.nz"; "co.co.nz"] ∅))
       (component_total_count (parse_domains ["co.uk"; "co.nz"; "co.co.nz"] ∅))).1
      !! "co" = Some total ∧
    2 ≤ total.
Proof.
  apply (unique_tld_freq_le_total ["co.uk"; "co.nz"; "co.co.nz"] ∅ "co" 2).
  by vm_compute.
Defined.

(** The two further scenarios of the specification. *)
Example parse_domains_two_tlds :
  component_total_count (parse_domains ["foo.com"; "foo.net"] ∅) !! "foo"
    = Some 2 ∧
  (calculate_frequencies
     (component_tlds (parse_domains ["foo.com"; "foo.net"] ∅))
     (component_total_count (parse_domains ["foo.com"; "foo.net"] ∅))).2
    !! "foo" = Some 2.
Proof. by vm_compute. Qed.

Example parse_domains_repeated_label :
  component_total_count (parse_domains ["a.a.example"] ∅) !! "a" = Some 2 ∧
  component_tlds (parse_domains ["a.a.example"] ∅) !! "a"
    = Some {["example"]} ∧
  tld_components (parse_domains ["a.a.example"] ∅) !! "example"
    = Some ["a"; "a"].
Proof. by vm_compute. Qed.

End indexes.

Section exclusion.

Implicit Types (excl : gset string) (occs : list (string * string)).

Lemma excluded_line_no_entry excl line t :
  line_tld line = Some t → t ∈ excl → line_entry excl line = None.
Proof.
  unfold line_tld, line_entry.
  destruct (line_labels line) as [parts|]; simpl; [|done].
  intros -> Hin. destruct (length parts <? 2)%nat; [done|]. simpl.
  by rewrite decide_True.
Qed.

Lemma excluded_line_skipped excl ix line :
  has_excluded_tld excl line = true → parse_line excl ix line = ix.
Proof.
  unfold has_excluded_tld.
  destruct (line_tld line) as [t|] eqn:Ht; [|done].
  intros Hin%bool_decide_eq_true.
  rewrite parse_line_occurrences. unfold line_occurrences.
  by rewrite (excluded_line_no_entry _ _ _ Ht Hin).
Qed.

Lemma foldl_parse_line_filter excl ix lines :
  foldl (parse_line excl) ix lines
  = foldl (parse_line excl) ix
      (filter (λ line, has_excluded_tld excl line = false) lines).
Proof.
  revert ix. induction lines as [|line lines IH]; intros ix; [done|].
  rewrite filter_cons. simpl. destruct (decide _) as [Hf|Ht]; simpl.
  - apply IH.
  - apply not_false_is_true in Ht.
    rewrite excluded_line_skipped by done. apply IH.
Qed.

(** C5: no excluded TLD is found in a TLD set or among the keys of the
    TLD-to-components index; a line whose TLD is excluded leaves the three
    indexes exactly as they were, so the parse is that of the lines without
    the excluded ones. *)
Theorem excluded_tlds_leave_no_trace lines excl :
  let ix := parse_domains lines excl in
  (∀ c tlds t, component_tlds ix !! c = Some tlds → t ∈ tlds → t ∉ excl) ∧
  (∀ t, t ∈ dom (tld_components ix) → t ∉ excl) ∧
  (∀ ix0 line t,
     line_tld line = Some t → t ∈ excl → parse_line excl ix0 line = ix0) ∧
  ix = parse_domains
         (filter (λ line, has_excluded_tld excl line = false) lines) excl.
Proof.
  simpl. destruct (parse_domains_lookup lines excl) as (H1 & _ & H3).
  repeat split.
  - intros c tlds t. rewrite H1. intros [_ ->]%entry_Some.
    rewrite elem_of_list_to_set, elem_of_tlds_of.
    intros Ho. by apply (occurrences_labels _ _ _ Ho).
  - intros t. rewrite elem_of_dom, H3, entry_is_Some.
    intros [c Hc%elem_of_components_of]%nonempty_elem.
    by apply (occurrences_labels _ _ _ Hc).
  - intros ix0 line t Ht Hin. apply excluded_line_skipped.
    unfold has_excluded_tld. rewrite Ht. by apply bool_decide_eq_true.
  - apply foldl_parse_line_filter.
Qed.

Lemma excluded_tlds_leave_no_trace_witness :
  parse_line default_exclude_tlds
    (parse_domains ["com.ac"] default_exclude_tlds) "co.jp"
  = parse_domains ["com.ac"] default_exclude_tlds.
Proof.
  destruct (excluded_tlds_leave_no_trace ["com.ac"] default_exclude_tlds)
    as (_ & _ & H & _).
  apply (H _ "co.jp" "jp"); [reflexivity | by vm_compute].
Defined.

End exclusion.

Section order.

Implicit Types (excl : gset string) (occs : list (string * string)).

Lemma occurrences_perm excl lines lines' :
  lines ≡ₚ lines' → occurrences excl lines ≡ₚ occurrences excl lines'.
Proof. unfold occurrences. by intros ->. Qed.

Lemma tlds_of_perm c occs occs' : occs ≡ₚ occs' → tlds_of c occs ≡ₚ tlds_of c occs'.
Proof. unfold tlds_of. by intros ->. Qed.

Lemma occurrences_app excl l1 l2 :
  occurrences excl (l1 ++ l2) = occurrences excl l1 ++ occurrences excl l2.
Proof. apply bind_app. Qed.

Lemma components_of_app t occs1 occs2 :
  components_of t (occs1 ++ occs2) = components_of t occs1 ++ components_of t occs2.
Proof. unfold components_of. by rewrite filter_app, fmap_app. Qed.

(** C7: a permutation of the lines gives the same component-to-TLD-set map
    and the same component-to-count map; the component list of a TLD holds
    the occurrences under that TLD in the order of the lines (and of the
    labels within a line), so what later lines add comes after what
    earlier lines added. *)
Theorem parse_domains_order lines lines' excl :
  lines ≡ₚ lines' →
  component_tlds (parse_domains lines excl)
    = component_tlds (parse_domains lines' excl) ∧
  component_total_count (parse_domains lines excl)
    = component_total_count (parse_domains lines' excl) ∧
  (∀ t, tld_components (parse_domains lines excl) !! t
        = entry (λ cs, cs) (components_of t (occurrences excl lines))) ∧
  (∀ t l1 l2,
     lines = l1 ++ l2 →
     default [] (tld_components (parse_domains lines excl) !! t)
     = default [] (tld_components (parse_domains l1 excl) !! t)
       ++ components_of t (occurrences excl l2)).
Proof.
  intros Hp.
  destruct (parse_domains_lookup lines excl) as (H1 & H2 & H3).
  destruct (parse_domains_lookup lines' excl) as (H1' & H2' & _).
  pose proof (occurrences_perm excl _ _ Hp) as Ho.
  repeat split.
  - apply map_eq. intros c. rewrite H1, H1'.
    apply entry_perm; [by apply tlds_of_perm|].
    apply set_eq. intros t. rewrite !elem_of_list_to_set.
    by rewrite (tlds_of_perm c _ _ Ho).
  - apply map_eq. intros c. rewrite H2, H2'.
    apply entry_perm; [by apply tlds_of_perm|].
    by rewrite (tlds_of_perm c _ _ Ho).
  - apply H3.
  - intros t l1 l2 ->.
    destruct (parse_domains_lookup l1 excl) as (_ & _ & H3').
    rewrite H3, H3', occurrences_app, components_of_app.
    destruct (components_of t (occurrences excl l1)) as [|c1 cs1]; simpl;
      [|done].
    by destruct (components_of t (occurrences excl l2)).
Qed.

Lemma parse_domains_order_witness :
  component_tlds (parse_domains ["com.ac"; "edu.ac"; "com.af"] ∅)
    = component_tlds (parse_domains ["edu.ac"; "com.af"; "com.ac"] ∅) ∧
  component_total_count (parse_domains ["com.ac"; "edu.ac"; "com.af"] ∅)
    = component_total_count (parse_domains ["edu.ac"; "com.af"; "com.ac"] ∅) ∧
  tld_components (parse_domains ["com.ac"; "edu.ac"; "com.af"] ∅) !! "ac"
    = Some ["com"; "edu"].
Proof.
  destruct (parse_domains_order ["com.ac"; "edu.ac"; "com.af"]
              ["edu.ac"; "com.af"; "com.ac"] ∅) as (H1 & H2 & H3 & _).
  { change ([ "com.ac" ] ++ ["edu.ac"; "com.af"]
            ≡ₚ ["edu.ac"; "com.af"] ++ ["com.ac"]).
    apply Permutation_app_comm. }
  split; [exact H1|]. split; [exact H2|]. rewrite H3. reflexivity.
Defined.

(** The component lists themselves do depend on the order of the lines. *)
Example tld_components_depend_on_order :
  tld_components (parse_domains ["com.ac"; "edu.ac"] ∅) !! "ac"
    = Some ["com"; "edu"] ∧
  tld_components (parse_domains ["edu.ac"; "com.ac"] ∅) !! "ac"
    = Some ["edu"; "com"].
Proof. by vm_compute. Qed.

End order.

Section totals.

Implicit Types (excl : gset string) (occs : list (string * string)).

(** Replacing or adding one entry moves a sum over the values by the
    difference of the entry's measures. *)
Lemma map_fold_sum_insert {A} (g : A → Z) (m : gmap string A) k v :
  map_fold (λ _ x acc, g x + acc) 0 (<[k := v]> m)
  = map_fold (λ _ x acc, g x + acc) 0 m - from_option g 0 (m !! k) + g v.
Proof.
  assert (∀ (m' : gmap string A) j1 j2 z1 z2 (y : Z),
            j1 ≠ j2 → m' !! j1 = Some z1 → m' !! j2 = Some z2 →
            g z1 + (g z2 + y) = g z2 + (g z1 + y)) as Hcomm by (intros; lia).
  destruct (m !! k) as [x|] eqn:Hk; simpl.
  - rewrite <- insert_delete_eq.
    rewrite (map_fold_insert_L _ _ _ _ _ (Hcomm _)) by apply lookup_delete_eq.
    rewrite (map_fold_delete_L _ _ _ _ _ (Hcomm _) Hk). lia.
  - rewrite (map_fold_insert_L _ _ _ _ _ (Hcomm _)) by done. lia.
Qed.

Lemma aggregate_sums occs :
  Forall (λ o, Py.truthy o.2 = true) occs →
  sum_counts (component_total_count (aggregate occs)) = Z.of_nat (length occs) ∧
  sum_lengths (tld_components (aggregate occs)) = Z.of_nat (length occs).
Proof.
  unfold sum_counts, sum_lengths.
  induction occs as [|[t c] occs IH] using rev_ind; intros Hall.
  - split; apply map_fold_empty.
  - apply Forall_app in Hall as [Hall Ho]. apply Forall_inv in Ho.
    destruct (IH Hall) as [IH1 IH2]. simpl in Ho.
    rewrite aggregate_snoc, record_occurrence_truthy by done. simpl.
    rewrite (map_fold_sum_insert (λ v, v)), (map_fold_sum_insert (λ l, Z.of_nat (length l))).
    rewrite IH1, IH2, !length_app. simpl. split.
    + destruct (component_total_count (aggregate occs) !! c); simpl; lia.
    + destruct (tld_components (aggregate occs) !! t); simpl; lia.
Qed.

(** C9: the component-to-TLD-set index and the component-to-count index
    have the same keys, and the counts add up to the total length of the
    TLD component lists. *)
Theorem index_keys_and_totals lines excl :
  dom (component_tlds (parse_domains lines excl))
    = dom (component_total_count (parse_domains lines excl)) ∧
  sum_counts (component_total_count (parse_domains lines excl))
    = sum_lengths (tld_components (parse_domains lines excl)).
Proof.
  split.
  - destruct (parse_domains_lookup lines excl) as (H1 & H2 & _).
    apply set_eq. intros c. by rewrite !elem_of_dom, H1, H2, !entry_is_Some.
  - rewrite parse_domains_aggregate.
    destruct (aggregate_sums _ (occurrences_truthy excl lines)) as [-> ->].
    done.
Qed.

(** C10: every key of the three indexes, every TLD in a TLD set and every
    component in a component list is a non-empty string without a dot. *)
Theorem index_strings_are_labels lines excl :
  (∀ c tlds,
     component_tlds (parse_domains lines excl) !! c = Some tlds →
     is_label c ∧ ∀ t, t ∈ tlds → is_label t) ∧
  (∀ c n,
     component_total_count (parse_domains lines excl) !! c = Some n →
     is_label c) ∧
  (∀ t cs,
     tld_components (parse_domains lines excl) !! t = Some cs →
     is_label t ∧ Forall is_label cs).
Proof.
  destruct (parse_domains_lookup lines excl) as (H1 & H2 & H3).
  split; [|split].
  - intros c tlds Hc. rewrite H1 in Hc. apply entry_Some in Hc as [Hne ->].
    split.
    + apply nonempty_elem in Hne as [t Ht%elem_of_tlds_of].
      by apply (occurrences_labels _ _ _ Ht).
    + intros t Ht%elem_of_list_to_set%elem_of_tlds_of.
      by apply (occurrences_labels _ _ _ Ht).
  - intros c n Hc. rewrite H2 in Hc. apply entry_Some in Hc as [Hne _].
    apply nonempty_elem in Hne as [t Ht%elem_of_tlds_of].
    by apply (occurrences_labels _ _ _ Ht).
  - intros t cs Ht. rewrite H3 in Ht. apply entry_Some in Ht as [Hne ->].
    split.
    + apply nonempty_elem in Hne as [c Hc%elem_of_components_of].
      by apply (occurrences_labels _ _ _ Hc).
    + apply Forall_forall. intros c Hc%elem_of_components_of.
      by apply (occurrences_labels _ _ _ Hc).
Qed.

Lemma index_strings_are_labels_witness :
  is_label "sch" ∧ ∀ t, t ∈ ({["uk"]} : gset string) → is_label t.
Proof.
  destruct (index_strings_are_labels ["*.sch.uk"] default_exclude_tlds)
    as (H & _ & _).
  apply (H "sch"). by vm_compute.
Defined.

End totals.

(** * Sorting and the ranked tables *)

Section sorted_facts.

Context {A K : Type} (ltb : K → K → bool) (key : A → K).
Hypothesis le_trans : ∀ x y z : A,
  key_le ltb key x y → key_le ltb key y z → key_le ltb key x z.
Hypothesis lt_le : ∀ x y : A, ltb (key x) (key y) = true → key_le ltb key x y.

Lemma insert_sorted_perm x l : Py.insert_sorted ltb key x l ≡ₚ x :: l.
Proof.
  induction l as [|y l IH]; simpl; [done|].
  destruct (ltb (key y) (key x)); [|done].
  rewrite IH. apply perm_swap.
Qed.

Lemma sorted_perm l : Py.sorted ltb key l ≡ₚ l.
Proof.
  induction l as [|x l IH]; simpl; [done|].
  by rewrite insert_sorted_perm, IH.
Qed.

Lemma insert_sorted_sorted x l :
  StronglySorted (key_le ltb key) l →
  StronglySorted (key_le ltb key) (Py.insert_sorted ltb key x l).
Proof.
  induction 1 as [|y l Hl IH Hy]; simpl.
  - by repeat constructor.
  - destruct (ltb (key y) (key x)) eqn:Hlt.
    + constructor; [done|].
      rewrite insert_sorted_perm. constructor; [by apply lt_le|done].
    + constructor; [by constructor|].
      constructor; [done|].
      eapply Forall_impl; [exact Hy|]. intros z Hz. by eapply le_trans.
Qed.

Lemma sorted_sorted l : StronglySorted (key_le ltb key) (Py.sorted ltb key l).
Proof.
  induction l as [|x l IH]; simpl; [constructor|].
  by apply insert_sorted_sorted.
Qed.

End sorted_facts.

Section ranked_tables.

Lemma string_ltb_spec a b : String.ltb a b = true ↔ String.le a b ∧ a ≠ b.
Proof.
  unfold String.le, String.ltb, String.leb.
  destruct (String.compare a b) eqn:Hc; simpl.
  - apply String.compare_eq_iff in Hc. split; [done|]. by intros [_ ?].
  - split; [|done]. intros _. split; [done|]. intros ->.
    pose proof (String.compare_antisym b b) as Ha. rewrite Hc in Ha. done.
  - split; [done|]. by intros [[] _].
Qed.

Lemma string_ltb_false a b : String.ltb b a = false ↔ String.le a b.
Proof.
  split.
  - intros Hf. destruct (total String.le a b) as [|Hba]; [done|].
    destruct (decide (a = b)) as [->|Hne]; [done|].
    assert (String.ltb b a = true) as Ht by (apply string_ltb_spec; by split).
    congruence.
  - intros Hab. apply not_true_is_false. intros [Hba Hne]%string_ltb_spec.
    apply Hne. by apply (anti_symm String.le).
Qed.

Lemma tuple_ltb_false (k1 k2 : Z * string) :
  Py.tuple_ltb k2 k1 = false ↔
  k1.1 < k2.1 ∨ (k1.1 = k2.1 ∧ String.le k1.2 k2.2).
Proof.
  unfold Py.tuple_ltb. destruct (Z.eqb_spec k2.1 k1.1) as [Heq|Hne].
  - rewrite string_ltb_false. split; [intros; right; by split|].
    intros [|[_ ?]]; [lia|done].
  - rewrite Z.ltb_ge. split; [intros; left; lia|]. intros [|[? _]]; lia.
Qed.

Lemma tuple_ltb_true (k1 k2 : Z * string) :
  Py.tuple_ltb k1 k2 = true ↔
  k1.1 < k2.1 ∨ (k1.1 = k2.1 ∧ String.ltb k1.2 k2.2 = true).
Proof.
  unfold Py.tuple_ltb. destruct (Z.eqb_spec k1.1 k2.1) as [Heq|Hne].
  - split; [intros; right; by split|]. intros [|[_ ?]]; [lia|done].
  - rewrite Z.ltb_lt. split; [intros; by left|]. intros [|[? _]]; [done|lia].
Qed.

Lemma key_le_trans {A} (key : A → Z * string) x y z :
  key_le Py.tuple_ltb key x y → key_le Py.tuple_ltb key y z →
  key_le Py.tuple_ltb key x z.
Proof.
  unfold key_le. rewrite !tuple_ltb_false.
  intros [H1|[H1 H1']] [H2|[H2 H2']]; try (left; lia).
  right. split; [lia|]. by etrans.
Qed.

Lemma key_lt_le {A} (key : A → Z * string) x y :
  Py.tuple_ltb (key x) (key y) = true → key_le Py.tuple_ltb key x y.
Proof.
  unfold key_le. rewrite tuple_ltb_true, tuple_ltb_false.
  intros [H|[H [H' _]%string_ltb_spec]]; [by left|by right].
Qed.

Lemma key_le_rank_antisym x y :
  key_le Py.tuple_ltb rank_key x y → key_le Py.tuple_ltb rank_key y x → x = y.
Proof.
  unfold key_le. rewrite !tuple_ltb_false. destruct x as [c1 v1], y as [c2 v2].
  simpl. intros [H1|[H1 H1']] [H2|[H2 H2']]; try lia.
  f_equal; [by apply (anti_symm String.le)|lia].
Qed.

Lemma key_le_row_before x y :
  x.1 ≠ y.1 → key_le Py.tuple_ltb rank_key x y → row_before x y.
Proof.
  unfold key_le, row_before. rewrite tuple_ltb_false. simpl.
  intros Hne [H|[H H']]; [left; lia|]. right. split; [lia|].
  apply string_ltb_spec. by split.
Qed.

Lemma StronglySorted_strengthen {A} (R R' : relation A) l :
  NoDup l →
  (∀ x y, x ∈ l → y ∈ l → x ≠ y → R x y → R' x y) →
  StronglySorted R l → StronglySorted R' l.
Proof.
  intros Hnd HR Hs. induction Hs as [|x l Hl IH Hx]; [constructor|].
  apply NoDup_cons in Hnd as [Hnin Hnd].
  constructor.
  - apply IH; [done|]. intros y z Hy Hz. apply HR; by right.
  - rewrite Forall_forall in *. intros y Hy.
    apply HR; [by left|by right| |by apply Hx]. by intros ->.
Qed.

Lemma ranked_perm data : ranked data ≡ₚ map_to_list data.
Proof. apply sorted_perm. Qed.

Lemma ranked_sorted data : StronglySorted row_before (ranked data).
Proof.
  apply (StronglySorted_strengthen (key_le Py.tuple_ltb rank_key)).
  - rewrite ranked_perm. apply NoDup_map_to_list.
  - intros [c1 v1] [c2 v2]. rewrite !ranked_perm, !elem_of_map_to_list.
    intros H1 H2 Hne. apply key_le_row_before. simpl. intros ->.
    apply Hne. by simplify_eq.
  - apply sorted_sorted; [apply key_le_trans|apply key_lt_le].
Qed.

(** The ranked table does not depend on the order in which the items of
    the dictionary are enumerated. *)
Lemma ranked_unique data items :
  items ≡ₚ map_to_list data →
  Py.sorted Py.tuple_ltb rank_key items = ranked data.
Proof.
  intros Hp.
  apply (StronglySorted_unique_strong (key_le Py.tuple_ltb rank_key)).
  - intros x y _ _. apply key_le_rank_antisym.
  - apply sorted_sorted; [apply key_le_trans|apply key_lt_le].
  - apply sorted_sorted; [apply key_le_trans|apply key_lt_le].
  - by rewrite sorted_perm, ranked_perm.
Qed.

(** C6: the table [write_csv] hands to the CSV writer holds the items of
    the frequency view, every row before every later row by higher value
    or, at equal value, by strictly smaller component string; this fixes
    the table whatever the order of the view's items. *)
Theorem write_csv_ranked filename data w :
  ∃ rows,
    files (write_csv filename data w).2 !! filename
      = Some (Csv ["string"; "frequency"] rows) ∧
    rows ≡ₚ map_to_list data ∧
    StronglySorted row_before rows ∧
    (∀ items, items ≡ₚ map_to_list data →
              Py.sorted Py.tuple_ltb rank_key items = rows).
Proof.
  exists (ranked data). split; [|split; [|split]].
  - unfold write_csv, mbind, M_bind, write_file, print. simpl.
    apply lookup_insert_eq.
  - apply ranked_perm.
  - apply ranked_sorted.
  - intros items. apply ranked_unique.
Qed.

Example write_csv_ranked_ties :
  ranked {[ "net" := 2; "com" := 3; "edu" := 2; "ac" := 3; "gov" := 1 ]}
  = [("ac", 3); ("com", 3); ("edu", 2); ("net", 2); ("gov", 1)].
Proof. by vm_compute. Qed.

End ranked_tables.

(** * Further properties of the parser *)

#[local] Set Warnings "-clear-no-such-hyp".

Section accumulation.

Implicit Types (excl : gset string) (occs : list (string * string)).

(** Recording occurrences into indexes that already hold entries. *)
Lemma foldl_record_lookup ix occs :
  Forall (λ o, Py.truthy o.2 = true) occs →
  (∀ c, default ∅ (component_tlds (foldl record_occurrence ix occs) !! c)
        = default ∅ (component_tlds ix !! c) ∪ list_to_set (tlds_of c occs)) ∧
  (∀ c, default 0 (component_total_count (foldl record_occurrence ix occs) !! c)
        = default 0 (component_total_count ix !! c)
          + Z.of_nat (length (tlds_of c occs))) ∧
  (∀ t, default [] (tld_components (foldl record_occurrence ix occs) !! t)
        = default [] (tld_components ix !! t) ++ components_of t occs).
Proof.
  induction occs as [|[t c] occs IH] using rev_ind; intros Hall.
  - split; [|split]; intros; simpl.
    + by rewrite (right_id_L ∅ (∪)).
    + lia.
    + by rewrite app_nil_r.
  - apply Forall_app in Hall as [Hall Ho]. apply Forall_inv in Ho.
    destruct (IH Hall) as (IH1 & IH2 & IH3). simpl in Ho.
    rewrite foldl_snoc, record_occurrence_truthy by done. simpl.
    split; [|split].
    + intros c'. rewrite tlds_of_snoc, lookup_insert.
      case_decide as Hc; [subst c'|apply IH1]. simpl.
      by rewrite IH1, list_to_set_snoc_L, (assoc_L (∪)).
    + intros c'. rewrite tlds_of_snoc, lookup_insert.
      case_decide as Hc; [subst c'|apply IH2]. simpl.
      rewrite IH2, length_app. simpl. lia.
    + intros t'. rewrite components_of_snoc, lookup_insert.
      case_decide as Hc; [subst t'|apply IH3]. simpl.
      by rewrite IH3, (assoc_L (++)).
Qed.

Lemma foldl_record_dom ix occs :
  Forall (λ o, Py.truthy o.2 = true) occs →
  dom (component_tlds (foldl record_occurrence ix occs))
    = dom (component_tlds ix) ∪ list_to_set occs.*2 ∧
  dom (component_total_count (foldl record_occurrence ix occs))
    = dom (component_total_count ix) ∪ list_to_set occs.*2 ∧
  dom (tld_components (foldl record_occurrence ix occs))
    = dom (tld_components ix) ∪ list_to_set occs.*1.
Proof.
  induction occs as [|[t c] occs IH] using rev_ind; intros Hall.
  - simpl. by rewrite !(right_id_L ∅ (∪)).
  - apply Forall_app in Hall as [Hall Ho]. apply Forall_inv in Ho.
    destruct (IH Hall) as (IH1 & IH2 & IH3). simpl in Ho.
    rewrite foldl_snoc, record_occurrence_truthy by done. simpl.
    rewrite !dom_insert_L, IH1, IH2, IH3, !fmap_app, !list_to_set_app_L.
    simpl. set_solver.
Qed.

Lemma tlds_of_pairs tld c comps :
  tlds_of c ((λ x, (tld, x)) <$> comps)
  = (λ _, tld) <$> filter (λ x, x = c) comps.
Proof.
  unfold tlds_of. induction comps as [|x comps IH]; [done|].
  rewrite fmap_cons, !filter_cons. simpl.
  destruct (decide (x = c)); simpl; [f_equal|]; apply IH.
Qed.

Lemma components_of_pairs tld t comps :
  components_of t ((λ x, (tld, x)) <$> comps)
  = if decide (t = tld) then comps else [].
Proof.
  unfold components_of. induction comps as [|x comps IH].
  { by destruct (decide _). }
  rewrite fmap_cons, filter_cons. simpl.
  destruct (decide (tld = t)) as [->|Hne]; simpl.
  - rewrite decide_True in * by done. f_equal. apply IH.
  - rewrite decide_False in * by done. apply IH.
Qed.

Lemma list_to_set_const (tld c : string) comps :
  list_to_set ((λ _, tld) <$> filter (λ x, x = c) comps)
  =@{gset string} if decide (c ∈ comps) then {[tld]} else ∅.
Proof.
  induction comps as [|x comps IH].
  { rewrite decide_False; [done|]. apply not_elem_of_nil. }
  rewrite filter_cons. destruct (decide (x = c)) as [->|Hne].
  - rewrite fmap_cons, list_to_set_cons, IH.
    rewrite (decide_True (P := c ∈ c :: comps)) by by left.
    destruct (decide (c ∈ comps)); set_solver.
  - rewrite IH. destruct (decide (c ∈ comps)) as [Hin|Hnin].
    + rewrite decide_True; [done|by right].
    + rewrite decide_False; [done|]. by intros [->|?]%elem_of_cons.
Qed.

Lemma line_entry_explicit excl line components tld :
  Py.strip line ≠ "" →
  Py.startswith (Py.strip line) "//" = false →
  split_parts (strip_markers (Py.strip line)) = components ++ [tld] →
  components ≠ [] → tld ∉ excl →
  line_entry excl line = Some (tld, components).
Proof.
  intros Hne Hc Hparts Hcomps Hex. unfold line_entry, line_labels.
  apply truthy_nonempty in Hne. rewrite Hne, Hc, Hparts. simpl.
  rewrite length_app. simpl.
  destruct (length components + 1 <? 2)%nat eqn:Hlen.
  { apply Nat.ltb_lt in Hlen. destruct components; [done|simpl in *; lia]. }
  rewrite last_snoc. simpl. rewrite decide_False by done.
  replace (length components + 1 - 1)%nat with (length components) by lia.
  by rewrite take_app_length.
Qed.

Lemma line_occurrences_truthy excl line :
  Forall (λ o, Py.truthy o.2 = true) (line_occurrences excl line).
Proof.
  apply Forall_forall. intros o Ho. apply truthy_nonempty.
  by apply (line_occurrences_labels _ _ _ Ho).
Qed.

End accumulation.

Section line_effects.

Implicit Types (excl : gset string) (occs : list (string * string)).

(** X1: a line the parser keeps, with labels [components ++ [tld]], adds to
    indexes that may already hold entries: every component's count grows
    by its number of occurrences in the line, its TLD set gains [tld], the
    list of [tld] is extended by the components in order, and nothing else
    changes. *)
Theorem parse_line_records excl ix line components tld :
  Py.strip line ≠ "" →
  Py.startswith (Py.strip line) "//" = false →
  split_parts (strip_markers (Py.strip line)) = components ++ [tld] →
  components ≠ [] →
  tld ∉ excl →
  (∀ c, default 0 (component_total_count (parse_line excl ix line) !! c)
        = default 0 (component_total_count ix !! c)
          + Z.of_nat (length (filter (λ x, x = c) components))) ∧
  (∀ c, default ∅ (component_tlds (parse_line excl ix line) !! c)
        = default ∅ (component_tlds ix !! c)
          ∪ (if decide (c ∈ components) then {[tld]} else ∅)) ∧
  (∀ t, default [] (tld_components (parse_line excl ix line) !! t)
        = default [] (tld_components ix !! t)
          ++ (if decide (t = tld) then components else [])) ∧
  dom (component_tlds (parse_line excl ix line))
    = dom (component_tlds ix) ∪ list_to_set components ∧
  dom (component_total_count (parse_line excl ix line))
    = dom (component_total_count ix) ∪ list_to_set components ∧
  dom (tld_components (parse_line excl ix line))
    = dom (tld_components ix) ∪ {[tld]}.
Proof.
  intros Hne Hc Hparts Hcomps Hex.
  pose proof (line_occurrences_truthy excl line) as Htr.
  rewrite parse_line_occurrences.
  unfold line_occurrences in *.
  rewrite (line_entry_explicit _ _ _ _ Hne Hc Hparts Hcomps Hex) in *.
  destruct (foldl_record_lookup ix _ Htr) as (H1 & H2 & H3).
  destruct (foldl_record_dom ix _ Htr) as (D1 & D2 & D3).
  split; [|split; [|split; [|split; [|split]]]].
  - intros c. by rewrite H2, tlds_of_pairs, length_fmap.
  - intros c. by rewrite H1, tlds_of_pairs, list_to_set_const.
  - intros t. by rewrite H3, components_of_pairs.
  - rewrite D1. f_equal. rewrite <- list_fmap_compose.
    by rewrite list_fmap_id.
  - rewrite D2. f_equal. rewrite <- list_fmap_compose.
    by rewrite list_fmap_id.
  - rewrite D3. f_equal. rewrite <- list_fmap_compose.
    destruct components as [|c0 cs]; [done|].
    apply set_eq. intros t. rewrite elem_of_list_to_set, list_elem_of_fmap.
    rewrite elem_of_singleton. split; [by intros (? & -> & _)|].
    intros ->. exists c0. split; [done|by left].
Qed.

Lemma parse_line_records_witness :
  default 0 (component_total_count
               (parse_line default_exclude_tlds empty_indexes "  a.a.example ")
             !! "a") = 2 ∧
  default [] (tld_components
                (parse_line default_exclude_tlds empty_indexes "  a.a.example ")
              !! "example") = ["a"; "a"].
Proof.
  destruct (parse_line_records default_exclude_tlds empty_indexes
              "  a.a.example " ["a"; "a"] "example")
    as (H1 & _ & H3 & _);
    [by vm_compute | by vm_compute | by vm_compute | done | by vm_compute |].
  split; [rewrite H1 | rewrite H3]; reflexivity.
Defined.

Lemma line_entry_None excl line :
  line_entry excl line = None ↔ skipped excl line.
Proof.
  unfold line_entry, line_labels, skipped.
  generalize (Py.strip line). intros l.
  generalize (Py.startswith l "//"). intros comment.
  destruct (Py.truthy l) eqn:Ht; simpl.
  2:{ split; [|done]. intros _. left. by destruct l. }
  assert (l ≠ "") as Hne by by apply truthy_nonempty.
  destruct comment; simpl.
  { split; [right; by left|done]. }
  destruct (length _ <? 2)%nat eqn:Hlen.
  { apply Nat.ltb_lt in Hlen. split; [do 2 right; by left|done]. }
  apply Nat.ltb_ge in Hlen.
  destruct (last _) as [t|] eqn:Hlast; simpl.
  - destruct (decide (t ∈ excl)) as [Hin|Hnin].
    + split; [|done]. intros _. do 3 right. by exists t.
    + split; [done|]. intros [?|[?|[?|(t' & [= <-] & ?)]]]; try done; lia.
  - apply last_None in Hlast. rewrite Hlast in Hlen. simpl in Hlen. lia.
Qed.

Lemma parse_line_fixed excl ix line :
  parse_line excl ix line = ix ↔ line_entry excl line = None.
Proof.
  split.
  - intros Hfix.
    destruct (line_entry excl line) as [[tld comps]|] eqn:He; [|done].
    exfalso.
    destruct (line_entry_labels _ _ _ _ He) as (parts & _ & _ & Hne & _).
    pose proof (line_occurrences_truthy excl line) as Htr.
    rewrite parse_line_occurrences in Hfix.
    unfold line_occurrences in *. rewrite He in *.
    destruct comps as [|c comps]; [done|].
    destruct (foldl_record_lookup ix _ Htr) as (_ & H2 & _).
    specialize (H2 c). rewrite Hfix, tlds_of_pairs in H2.
    rewrite filter_cons, decide_True in H2 by done. simpl in H2. lia.
  - intros He. rewrite parse_line_occurrences. unfold line_occurrences.
    by rewrite He.
Qed.

(** X2: a line leaves the indexes as they are exactly when it is blank, a
    comment, has fewer than two labels or ends in an excluded TLD; lines
    that are all of this kind give the empty indexes. *)
Theorem parse_line_skips excl :
  (∀ ix line, parse_line excl ix line = ix ↔ skipped excl line) ∧
  (∀ lines, Forall (skipped excl) lines →
            parse_domains lines excl = empty_indexes).
Proof.
  split.
  - intros ix line. by rewrite parse_line_fixed, line_entry_None.
  - intros lines Hall. unfold parse_domains.
    induction Hall as [|line lines Hl _ IH]; [done|]. simpl.
    apply line_entry_None, (parse_line_fixed _ empty_indexes) in Hl.
    by rewrite Hl.
Qed.

Lemma parse_line_skips_witness :
  parse_domains ["// comment"; ""; "   "; "uk"; "co.jp"] default_exclude_tlds
  = empty_indexes.
Proof.
  destruct (parse_line_skips default_exclude_tlds) as [_ H]. apply H.
  constructor; [right; left; reflexivity|].
  constructor; [left; reflexivity|].
  constructor; [left; reflexivity|].
  constructor; [right; right; left; vm_compute; lia|].
  constructor; [|constructor].
  right. right. right. exists "jp". split; [reflexivity | by vm_compute].
Defined.

End line_effects.

Section composition.

Implicit Types (excl : gset string) (occs : list (string * string)).

(** X3: parsing a concatenation is the merge of the two parses: counts
    add up, TLD sets are united, component lists are appended, and the key
    sets are the unions. *)
Theorem parse_domains_app l1 l2 excl :
  (∀ c, default 0 (component_total_count (parse_domains (l1 ++ l2) excl) !! c)
        = default 0 (component_total_count (parse_domains l1 excl) !! c)
          + default 0 (component_total_count (parse_domains l2 excl) !! c)) ∧
  (∀ c, default ∅ (component_tlds (parse_domains (l1 ++ l2) excl) !! c)
        = default ∅ (component_tlds (parse_domains l1 excl) !! c)
          ∪ default ∅ (component_tlds (parse_domains l2 excl) !! c)) ∧
  (∀ t, default [] (tld_components (parse_domains (l1 ++ l2) excl) !! t)
        = default [] (tld_components (parse_domains l1 excl) !! t)
          ++ default [] (tld_components (parse_domains l2 excl) !! t)) ∧
  dom (component_tlds (parse_domains (l1 ++ l2) excl))
    = dom (component_tlds (parse_domains l1 excl))
      ∪ dom (component_tlds (parse_domains l2 excl)) ∧
  dom (tld_components (parse_domains (l1 ++ l2) excl))
    = dom (tld_components (parse_domains l1 excl))
      ∪ dom (tld_components (parse_domains l2 excl)).
Proof.
  assert (parse_domains (l1 ++ l2) excl
          = foldl record_occurrence (parse_domains l1 excl) (occurrences excl l2))
    as ->.
  { unfold parse_domains. by rewrite foldl_app, foldl_parse_line. }
  pose proof (occurrences_truthy excl l2) as Htr.
  destruct (foldl_record_lookup (parse_domains l1 excl) _ Htr) as (H1 & H2 & H3).
  destruct (foldl_record_dom (parse_domains l1 excl) _ Htr) as (D1 & _ & D3).
  rewrite (parse_domains_aggregate l2). unfold aggregate.
  destruct (foldl_record_lookup empty_indexes _ Htr) as (E1 & E2 & E3).
  destruct (foldl_record_dom empty_indexes _ Htr) as (F1 & _ & F3).
  simpl in *.
  split; [|split; [|split; [|split]]].
  - intros c. rewrite H2, E2, lookup_empty. simpl. lia.
  - intros c. rewrite H1, E1, lookup_empty. simpl.
    by rewrite (left_id_L ∅ (∪)).
  - intros t. rewrite H3, E3, lookup_empty. done.
  - rewrite D1, F1, dom_empty_L. by rewrite (left_id_L ∅ (∪)).
  - rewrite D3, F3, dom_empty_L. by rewrite (left_id_L ∅ (∪)).
Qed.

(** X4: the three indexes of a parse agree with one another: a TLD is in
    the TLD set of a component exactly when the component is in the list of
    that TLD; every count is at least one, no TLD set and no component list
    is empty. *)
Theorem indexes_consistent lines excl :
  (∀ c t,
     (∃ tlds, component_tlds (parse_domains lines excl) !! c = Some tlds ∧
              t ∈ tlds) ↔
     (∃ cs, tld_components (parse_domains lines excl) !! t = Some cs ∧
            c ∈ cs)) ∧
  (∀ c n, component_total_count (parse_domains lines excl) !! c = Some n →
          1 ≤ n) ∧
  (∀ c tlds, component_tlds (parse_domains lines excl) !! c = Some tlds →
             tlds ≠ ∅) ∧
  (∀ t cs, tld_components (parse_domains lines excl) !! t = Some cs →
           cs ≠ []).
Proof.
  destruct (parse_domains_lookup lines excl) as (H1 & H2 & H3).
  split; [|split; [|split]].
  - intros c t. rewrite H1, H3. split.
    + intros (tlds & [Hne ->]%entry_Some & Ht).
      apply elem_of_list_to_set, elem_of_tlds_of in Ht.
      exists (components_of t (occurrences excl lines)).
      apply elem_of_components_of in Ht. split; [|done].
      apply entry_Some. split; [|done]. intros Hnil.
      rewrite Hnil in Ht. by apply elem_of_nil in Ht.
    + intros (cs & [Hne ->]%entry_Some & Hc).
      apply elem_of_components_of in Hc.
      exists (list_to_set (tlds_of c (occurrences excl lines))).
      apply elem_of_tlds_of in Hc. split; [|by apply elem_of_list_to_set].
      apply entry_Some. split; [|done]. intros Hnil.
      rewrite Hnil in Hc. by apply elem_of_nil in Hc.
  - intros c n. rewrite H2. intros [Hne ->]%entry_Some.
    destruct (tlds_of c (occurrences excl lines)); [done|]. simpl. lia.
  - intros c tlds. rewrite H1. intros [Hne ->]%entry_Some.
    destruct (tlds_of c (occurrences excl lines)) as [|t ts]; [done|].
    intros Hempty. assert (t ∈ (∅ : gset string)) as Hin.
    { rewrite <- Hempty. apply elem_of_list_to_set. by left. }
    by apply not_elem_of_empty in Hin.
  - intros t cs. rewrite H3. by intros [Hne ->]%entry_Some.
Qed.

Lemma indexes_consistent_witness :
  ∃ cs, tld_components (parse_domains ["edu.ac"; "com.ac"] ∅) !! "ac" = Some cs ∧
        "com" ∈ cs.
Proof.
  destruct (indexes_consistent ["edu.ac"; "com.ac"] ∅) as (H & _).
  apply (H "com" "ac"). exists {["ac"]}.
  split; [by vm_compute | by apply elem_of_singleton].
Defined.

End composition.

Section whitespace.

Lemma all_space_lstrip s : all_space s = true → Py.lstrip_space s = "".
Proof.
  induction s as [|c s IH]; [done|]. simpl.
  intros [-> Hs]%andb_true_iff. by apply IH.
Qed.

Lemma all_space_rstrip s : all_space s = true → Py.rstrip_space s = "".
Proof.
  induction s as [|c s IH]; [done|]. simpl.
  intros [-> Hs]%andb_true_iff. by rewrite IH.
Qed.

Lemma lstrip_space_pad ws s :
  all_space ws = true → Py.lstrip_space (ws +:+ s) = Py.lstrip_space s.
Proof.
  induction ws as [|c ws IH]; [done|].
  intros [Hc Hs]%andb_true_iff.
  rewrite string_app_cons. simpl. rewrite Hc. by apply IH.
Qed.

Lemma lstrip_space_app s ws :
  all_space ws = true →
  Py.lstrip_space (s +:+ ws)
  = if all_space s then "" else Py.lstrip_space s +:+ ws.
Proof.
  intros Hws. induction s as [|c s IH].
  - by apply all_space_lstrip.
  - rewrite string_app_cons. simpl.
    destruct (Py.isspace c); simpl; [apply IH|done].
Qed.

Lemma rstrip_space_app s ws :
  all_space ws = true → Py.rstrip_space (s +:+ ws) = Py.rstrip_space s.
Proof.
  intros Hws. induction s as [|c s IH].
  - by apply all_space_rstrip.
  - rewrite string_app_cons. simpl. by rewrite IH.
Qed.

Lemma strip_pad ws1 s ws2 :
  all_space ws1 = true → all_space ws2 = true →
  Py.strip (ws1 +:+ s +:+ ws2) = Py.strip s.
Proof.
  intros H1 H2. unfold Py.strip.
  rewrite lstrip_space_pad, lstrip_space_app by done.
  destruct (all_space s) eqn:Hs.
  - by rewrite all_space_lstrip.
  - by apply rstrip_space_app.
Qed.

(** X5: whitespace around a line does not count: padding a line with
    whitespace on either side (a trailing carriage return, indentation)
    leaves what the parser makes of it unchanged. *)
Theorem parse_line_whitespace excl ix ws1 line ws2 :
  all_space ws1 = true → all_space ws2 = true →
  parse_line excl ix (ws1 +:+ line +:+ ws2) = parse_line excl ix line.
Proof.
  intros H1 H2. unfold parse_line. by rewrite strip_pad.
Qed.

Lemma parse_line_whitespace_witness :
  parse_line default_exclude_tlds empty_indexes
    (String "009" " " +:+ "*.sch.uk" +:+ String "013" "")
  = parse_line default_exclude_tlds empty_indexes "*.sch.uk".
Proof.
  apply parse_line_whitespace; reflexivity.
Defined.

End whitespace.

Section documents.

Lemma split_no_sep sep s : Py.char_in sep s = false → Py.split sep s = [s].
Proof.
  induction s as [|c s IH]; [done|]. simpl.
  rewrite Ascii.eqb_sym. intros [Hc Hs]%orb_false_iff.
  by rewrite Hc, IH.
Qed.

Lemma split_app_sep sep l r :
  Py.char_in sep l = false →
  Py.split sep (l +:+ String sep r) = l :: Py.split sep r.
Proof.
  induction l as [|c l IH].
  - intros _. change ("" +:+ String sep r) with (String sep r). simpl.
    by rewrite Ascii.eqb_refl.
  - simpl. rewrite Ascii.eqb_sym. intros [Hc Hs]%orb_false_iff.
    by rewrite Hc, IH.
Qed.

Lemma split_join_lines ls :
  ls ≠ [] → Forall (λ l, Py.char_in nl l = false) ls →
  Py.split nl (join_lines ls) = ls.
Proof.
  intros Hne Hall. induction Hall as [|l ls Hl Hls IH]; [done|].
  destruct ls as [|l2 ls].
  - simpl. by apply split_no_sep.
  - change (join_lines (l :: l2 :: ls))
      with (l +:+ String nl (join_lines (l2 :: ls))).
    rewrite split_app_sep by done. by rewrite IH.
Qed.

Lemma join_lines_split s : join_lines (Py.split nl s) = s.
Proof.
  induction s as [|c s IH]; [done|]. simpl.
  destruct (Ascii.eqb_spec c nl) as [->|Hne].
  - destruct (Py.split nl s) as [|w ws] eqn:Hsp;
      [by destruct (split_nonempty nl s)|].
    change (join_lines ("" :: w :: ws))
      with ("" +:+ String nl (join_lines (w :: ws))).
    by rewrite IH.
  - destruct (Py.split nl s) as [|w ws] eqn:Hsp;
      [by destruct (split_nonempty nl s)|].
    destruct ws as [|w2 ws]; simpl in *; [by rewrite IH|].
    by rewrite string_app_cons, IH.
Qed.

(** X6: on a document whose lines are [pre], the start marker, [section],
    the end marker and [post], the extractor returns [section], provided no
    line of [pre] is an end marker line and no line of [section] holds a
    marker; [post] may hold anything, further markers included. *)
Theorem extract_icann_domains_document pre section post :
  Forall (λ l, Py.char_in nl l = false) (pre ++ section ++ post) →
  Forall (λ l, is_end_line l = false) pre →
  Forall (λ l, is_start_line l = false ∧ is_end_line l = false) section →
  extract_icann_domains
    (join_lines (pre ++ start_marker :: section ++ end_marker :: post))
  = inr section.
Proof.
  intros Hnl Hpre Hsec.
  apply (extract_lines_section pre start_marker section end_marker post);
    try done.
  apply split_join_lines; [by destruct pre|].
  apply Forall_app in Hnl as [Hn1 Hn2]. apply Forall_app in Hn2 as [Hn2 Hn3].
  apply Forall_app. split; [done|]. constructor; [done|].
  apply Forall_app. split; [done|]. by constructor.
Qed.

Lemma extract_icann_domains_document_witness :
  extract_icann_domains
    (join_lines (["// header"; "ignored.example"]
                 ++ start_marker :: ["ac"; "com.ac"]
                 ++ end_marker :: ["// ===BEGIN PRIVATE DOMAINS==="; end_marker]))
  = inr ["ac"; "com.ac"].
Proof.
  apply extract_icann_domains_document.
  - repeat constructor.
  - repeat constructor.
  - repeat (constructor; [split; reflexivity|]). constructor.
Defined.

End documents.

(** * The JSON reports *)

Section json_reports.

Lemma string_key_le_trans (x y z : string) :
  key_le String.ltb id x y → key_le String.ltb id y z →
  key_le String.ltb id x z.
Proof. unfold key_le. simpl. rewrite !string_ltb_false. by etrans. Qed.

Lemma string_key_lt_le (x y : string) :
  String.ltb (id x) (id y) = true → key_le String.ltb id x y.
Proof.
  unfold key_le. simpl. rewrite string_ltb_spec, string_ltb_false.
  by intros [? _].
Qed.

(** [sorted] on distinct strings: strictly ascending, whatever the order
    they come in. *)
Lemma sorted_strings l :
  NoDup l →
  Py.sorted String.ltb id l ≡ₚ l ∧
  StronglySorted string_lt (Py.sorted String.ltb id l) ∧
  (∀ l', l' ≡ₚ l → Py.sorted String.ltb id l' = Py.sorted String.ltb id l).
Proof.
  intros Hnd.
  assert (∀ k, StronglySorted (key_le String.ltb id) (Py.sorted String.ltb id k))
    as Hs.
  { intros k. apply sorted_sorted;
      [apply string_key_le_trans|apply string_key_lt_le]. }
  split; [apply sorted_perm|]. split.
  - apply (StronglySorted_strengthen (key_le String.ltb id)); [|  |apply Hs].
    + by rewrite sorted_perm.
    + intros x y _ _ Hne. unfold key_le, string_lt. simpl.
      rewrite string_ltb_false, string_ltb_spec. by split.
  - intros l' Hp.
    apply (StronglySorted_unique_strong (key_le String.ltb id));
      [|apply Hs|apply Hs|by rewrite !sorted_perm].
    intros x y _ _. unfold key_le. simpl. rewrite !string_ltb_false.
    apply (anti_symm String.le).
Qed.

(** [sorted] on distinct components by [(-count, string)]: higher counts
    first, ties in ascending string order, whatever the order they come
    in. *)
Lemma sorted_by_count cc l :
  NoDup l →
  Py.sorted Py.tuple_ltb (count_key cc) l ≡ₚ l ∧
  StronglySorted (count_before cc) (Py.sorted Py.tuple_ltb (count_key cc) l) ∧
  (∀ l', l' ≡ₚ l →
         Py.sorted Py.tuple_ltb (count_key cc) l'
         = Py.sorted Py.tuple_ltb (count_key cc) l).
Proof.
  intros Hnd.
  assert (∀ k, StronglySorted (key_le Py.tuple_ltb (count_key cc))
                 (Py.sorted Py.tuple_ltb (count_key cc) k)) as Hs.
  { intros k. apply sorted_sorted; [apply key_le_trans|apply key_lt_le]. }
  split; [apply sorted_perm|]. split.
  - apply (StronglySorted_strengthen (key_le Py.tuple_ltb (count_key cc)));
      [|  |apply Hs].
    + by rewrite sorted_perm.
    + intros x y _ _ Hne. unfold key_le, count_before, row_before, count_key.
      rewrite tuple_ltb_false. simpl.
      intros [H|[H H']]; [left; lia|]. right. split; [lia|].
      apply string_ltb_spec. by split.
  - intros l' Hp.
    apply (StronglySorted_unique_strong (key_le Py.tuple_ltb (count_key cc)));
      [|apply Hs|apply Hs|by rewrite !sorted_perm].
    intros x y _ _. unfold key_le, count_key. rewrite !tuple_ltb_false. simpl.
    intros [H1|[H1 H1']] [H2|[H2 H2']]; try lia.
    by apply (anti_symm String.le).
Qed.

Lemma fst_fmap_pair {A B} (f : A → B) (l : list A) :
  ((λ x, (x, f x)) <$> l).*1 = l.
Proof. induction l as [|x l IH]; [done|]. simpl. by f_equal. Qed.

Lemma write_json_string_to_tlds_file filename ct cc w :
  files (write_json_string_to_tlds filename ct cc w).2 !! filename
  = Some (Json (JObj
      ((λ component,
          (component,
           JObj [("count", JInt (count_of cc component));
                 ("tlds",
                  JList (JStr <$> Py.sorted String.ltb id
                           (elements (default ∅ (ct !! component)))))]))
       <$> Py.sorted Py.tuple_ltb (count_key cc) (elements (dom ct))))).
Proof. apply lookup_insert_eq. Qed.

Lemma write_json_tld_to_strings_file filename tc cc w :
  files (write_json_tld_to_strings filename tc cc w).2 !! filename
  = Some (Json (JObj
      ((λ tld,
          (tld,
           JList (JStr <$> Py.sorted Py.tuple_ltb (count_key cc)
                    (elements (list_to_set (default [] (tc !! tld))
                               : gset string)))))
       <$> Py.sorted String.ltb id (elements (dom tc))))).
Proof. apply lookup_insert_eq. Qed.

(** X7: the component report is a JSON object with one field per key of
    the component-to-TLDs index, ordered by count descending and then by
    string ascending; every field holds the count and the TLDs of the
    component in strictly ascending order. Neither order depends on how
    the dictionary keys or the set elements are enumerated. *)
Theorem write_json_string_to_tlds_ranked filename ct cc w :
  ∃ fields,
    files (write_json_string_to_tlds filename ct cc w).2 !! filename
      = Some (Json (JObj fields)) ∧
    fields.*1 ≡ₚ elements (dom ct) ∧
    StronglySorted (count_before cc) fields.*1 ∧
    (∀ keys, keys ≡ₚ elements (dom ct) →
             Py.sorted Py.tuple_ltb (count_key cc) keys = fields.*1) ∧
    (∀ c v, (c, v) ∈ fields →
       ∃ s tlds,
         ct !! c = Some s ∧
         v = JObj [("count", JInt (count_of cc c));
                   ("tlds", JList (JStr <$> tlds))] ∧
         StronglySorted string_lt tlds ∧
         (∀ t, t ∈ tlds ↔ t ∈ s) ∧
         (∀ items, items ≡ₚ elements s →
                   Py.sorted String.ltb id items = tlds)).
Proof.
  eexists. split; [apply write_json_string_to_tlds_file|].
  rewrite fst_fmap_pair.
  destruct (sorted_by_count cc (elements (dom ct))) as (Hp & Hs & Hu);
    [apply NoDup_elements|].
  split; [done|]. split; [done|]. split; [done|].
  intros c v (c' & [= -> ->] & Hc)%list_elem_of_fmap.
  rewrite Hp in Hc. apply elem_of_elements, elem_of_dom in Hc as [s Hs'].
  rewrite Hs'. simpl.
  destruct (sorted_strings (elements s)) as (Hp' & Hs'' & Hu');
    [apply NoDup_elements|].
  exists s, (Py.sorted String.ltb id (elements s)).
  split; [done|]. split; [done|]. split; [done|]. split; [|done].
  intros t. by rewrite Hp', elem_of_elements.
Qed.

(** X8: the TLD report is a JSON object with one field per key of the
    TLD-to-components index, in strictly ascending order of the TLD; every
    field lists the components recorded under the TLD once each, ordered by
    count descending and then by string ascending. *)
Theorem write_json_tld_to_strings_ranked filename tc cc w :
  ∃ fields,
    files (write_json_tld_to_strings filename tc cc w).2 !! filename
      = Some (Json (JObj fields)) ∧
    fields.*1 ≡ₚ elements (dom tc) ∧
    StronglySorted string_lt fields.*1 ∧
    (∀ keys, keys ≡ₚ elements (dom tc) →
             Py.sorted String.ltb id keys = fields.*1) ∧
    (∀ t v, (t, v) ∈ fields →
       ∃ cs comps,
         tc !! t = Some cs ∧
         v = JList (JStr <$> comps) ∧
         NoDup comps ∧
         (∀ c, c ∈ comps ↔ c ∈ cs) ∧
         StronglySorted (count_before cc) comps).
Proof.
  eexists. split; [apply write_json_tld_to_strings_file|].
  rewrite fst_fmap_pair.
  destruct (sorted_strings (elements (dom tc))) as (Hp & Hs & Hu);
    [apply NoDup_elements|].
  split; [done|]. split; [done|]. split; [done|].
  intros t v (t' & [= -> ->] & Ht)%list_elem_of_fmap.
  rewrite Hp in Ht. apply elem_of_elements, elem_of_dom in Ht as [cs Hcs].
  rewrite Hcs. simpl.
  destruct (sorted_by_count cc (elements (list_to_set cs : gset string)))
    as (Hp' & Hs' & _); [apply NoDup_elements|].
  exists cs, (Py.sorted Py.tuple_ltb (count_key cc)
                (elements (list_to_set cs : gset string))).
  split; [done|]. split; [done|]. split; [|split; [|done]].
  - rewrite Hp'. apply NoDup_elements.
  - intros c. by rewrite Hp', elem_of_elements, elem_of_list_to_set.
Qed.

Example write_json_tld_to_strings_example :
  files (write_json_tld_to_strings "out.json"
           {[ "uk" := ["co"; "ac"; "co"; "sch"] ]}
           {[ "co" := 3; "ac" := 1; "sch" := 1 ]} empty_world).2 !! "out.json"
  = Some (Json (JObj [("uk", JList [JStr "co"; JStr "ac"; JStr "sch"])])).
Proof. by vm_compute. Qed.

End json_reports.

(** * What a run leaves behind *)

Section outputs.

Lemma overlays_eq m out out' : overlays m out → out = out' → overlays m out'.
Proof. by intros H <-. Qed.

Lemma overlays_print s : overlays (print s) ∅.
Proof. intros w. eexists. split; [done|]. simpl. by rewrite (left_id_L ∅ (∪)). Qed.

Lemma overlays_write_file f c : overlays (write_file f c) {[ f := c ]}.
Proof.
  intros w. eexists. split; [done|]. simpl. apply insert_union_singleton_l.
Qed.

Lemma overlays_bind (m1 m2 : M ()) out1 out2 :
  overlays m1 out1 → overlays m2 out2 → overlays (m1 ;; m2) (out2 ∪ out1).
Proof.
  intros H1 H2 w. destruct (H1 w) as (w1 & Hw1 & Hf1).
  destruct (H2 w1) as (w2 & Hw2 & Hf2). exists w2.
  unfold mbind, M_bind. rewrite Hw1. split; [done|].
  by rewrite Hf2, Hf1, (assoc_L (∪)).
Qed.

Lemma overlays_for_each {A} (l : list A) body :
  (∀ x, overlays (body x) ∅) → overlays (for_each l body) ∅.
Proof.
  intros Hb. induction l as [|x l IH]; simpl.
  - intros w. exists w. split; [done|]. by rewrite (left_id_L ∅ (∪)).
  - eapply overlays_eq; [by apply overlays_bind|].
    by rewrite (left_id_L ∅ (∪)).
Qed.

Lemma overlays_print_top10 freq : overlays (print_top10 freq) ∅.
Proof. apply overlays_for_each. intros [c v]. apply overlays_print. Qed.

Lemma overlays_write_then_print f c s :
  overlays (write_file f c ;; print s) {[ f := c ]}.
Proof.
  eapply overlays_eq;
    [apply overlays_bind; [apply overlays_write_file|apply overlays_print]|].
  by rewrite (left_id_L ∅ (∪)).
Qed.

Lemma overlays_write_csv f data :
  overlays (write_csv f data) {[ f := Csv ["string"; "frequency"] (ranked data) ]}.
Proof. apply overlays_write_then_print. Qed.

Lemma overlays_write_json_string_to_tlds f ct cc :
  ∃ j, overlays (write_json_string_to_tlds f ct cc) {[ f := Json j ]}.
Proof. eexists. apply overlays_write_then_print. Qed.

Lemma overlays_write_json_tld_to_strings f tc cc :
  ∃ j, overlays (write_json_tld_to_strings f tc cc) {[ f := Json j ]}.
Proof. eexists. apply overlays_write_then_print. Qed.

Ltac overlays_step :=
  lazymatch goal with
  | |- overlays (mbind _ _) _ => eapply overlays_bind
  | |- overlays (print _) _ => apply overlays_print
  | |- overlays (write_csv _ _) _ => apply overlays_write_csv
  | |- overlays (print_top10 _) _ => apply overlays_print_top10
  | |- overlays (write_json_string_to_tlds _ _ _) _ => eassumption
  | |- overlays (write_json_tld_to_strings _ _ _) _ => eassumption
  end.

(** The files the reporting part of [main] lays over the old ones. *)
Lemma overlays_report icann_lines :
  ∃ j1 j2,
    overlays (report icann_lines)
      (<[ "sld_popularity_total.csv" :=
            Csv ["string"; "frequency"]
              (ranked (component_total_count
                         (parse_domains icann_lines default_exclude_tlds))) ]>
       (<[ "sld_popularity_unique_tld.csv" :=
             Csv ["string"; "frequency"]
               (ranked (calculate_frequencies
                          (component_tlds
                             (parse_domains icann_lines default_exclude_tlds))
                          (component_total_count
                             (parse_domains icann_lines default_exclude_tlds))).2) ]>
        (<[ "sld_string_to_tlds.json" := Json j1 ]>
         {[ "sld_tld_to_strings.json" := Json j2 ]}))).
Proof.
  destruct (overlays_write_json_string_to_tlds "sld_string_to_tlds.json"
              (component_tlds (parse_domains icann_lines default_exclude_tlds))
              (component_total_count
                 (parse_domains icann_lines default_exclude_tlds)))
    as [j1 Hj1].
  destruct (overlays_write_json_tld_to_strings "sld_tld_to_strings.json"
              (tld_components (parse_domains icann_lines default_exclude_tlds))
              (component_total_count
                 (parse_domains icann_lines default_exclude_tlds)))
    as [j2 Hj2].
  exists j1, j2.
  eapply overlays_eq.
  { unfold report, calculate_frequencies. cbv beta iota zeta.
    repeat overlays_step. }
  rewrite !(left_id_L ∅ (∪)), !(right_id_L ∅ (∪)).
  apply map_eq. intros f.
  rewrite !lookup_union, !lookup_insert, !lookup_singleton.
  repeat case_decide; simplify_eq; done.
Qed.

End outputs.

Section outcomes.

(** The three ways a run ends, seen from any starting world. *)
Lemma main_cases response :
  (∃ e, (response = inl e ∨
         ∃ content, response = inr content ∧
                    extract_icann_domains content = inl e) ∧
        ∀ w, (main response w).1 = inl e ∧ files (main response w).2 = files w) ∨
  (∃ content icann_lines j1 j2,
     response = inr content ∧
     extract_icann_domains content = inr icann_lines ∧
     ∀ w, (main response w).1 = inr () ∧
          files (main response w).2
          = <[ "sld_popularity_total.csv" :=
                 Csv ["string"; "frequency"]
                   (ranked (component_total_count
                              (parse_domains icann_lines default_exclude_tlds))) ]>
            (<[ "sld_popularity_unique_tld.csv" :=
                  Csv ["string"; "frequency"]
                    (ranked (calculate_frequencies
                               (component_tlds
                                  (parse_domains icann_lines default_exclude_tlds))
                               (component_total_count
                                  (parse_domains icann_lines default_exclude_tlds))).2) ]>
             (<[ "sld_string_to_tlds.json" := Json j1 ]>
              {[ "sld_tld_to_strings.json" := Json j2 ]}))
            ∪ files w).
Proof.
  destruct response as [e|content].
  { left. exists e. split; [by left|]. intros w. by split. }
  destruct (extract_icann_domains content) as [e|icann_lines] eqn:Hex.
  { left. exists e. split; [right; by exists content|]. intros w.
    rewrite main_unfold. unfold mbind, M_bind, fetch_psl, print at 1. simpl.
    by rewrite Hex. }
  right. destruct (overlays_report icann_lines) as (j1 & j2 & Hrep).
  exists content, icann_lines, j1, j2. split; [done|]. split; [done|].
  intros w. rewrite main_unfold.
  unfold mbind, M_bind, fetch_psl, print at 1. simpl. rewrite Hex. simpl.
  destruct (Hrep (World (files w)
                    ((console w ++ ["Fetching Public Suffix List..."]) ++
                     ["Extracting ICANN domains section..."])))
    as (w' & -> & Hf).
  by split.
Qed.

(** X9: a run ends in one of three ways. It raises the exception of the
    fetch, or the markers-not-found error of the extractor, and then leaves
    the files untouched; or it returns normally, and then the files are the
    old ones overlaid with exactly the four output files, the two tables
    being the ranked frequency views of the parse of the extracted
    section. *)
Theorem main_outcome response w :
  match response with
  | inl e =>
      (main response w).1 = inl e ∧ files (main response w).2 = files w
  | inr content =>
      match extract_icann_domains content with
      | inl e =>
          e = markers_error ∧
          (main response w).1 = inl e ∧ files (main response w).2 = files w
      | inr icann_lines =>
          (main response w).1 = inr () ∧
          dom (files (main response w).2) = output_names ∪ dom (files w) ∧
          (∀ f, f ∉ output_names →
                files (main response w).2 !! f = files w !! f) ∧
          files (main response w).2 !! "sld_popularity_total.csv"
            = Some (Csv ["string"; "frequency"]
                      (ranked (component_total_count
                                 (parse_domains icann_lines default_exclude_tlds)))) ∧
          files (main response w).2 !! "sld_popularity_unique_tld.csv"
            = Some (Csv ["string"; "frequency"]
                      (ranked (calculate_frequencies
                                 (component_tlds
                                    (parse_domains icann_lines default_exclude_tlds))
                                 (component_total_count
                                    (parse_domains icann_lines default_exclude_tlds))).2)) ∧
          (∃ j, files (main response w).2 !! "sld_string_to_tlds.json"
                = Some (Json j)) ∧
          (∃ j, files (main response w).2 !! "sld_tld_to_strings.json"
                = Some (Json j))
      end
  end.
Proof.
  destruct (main_cases response)
    as [(e & Hwhy & Hrun)|(content & icann_lines & j1 & j2 & -> & Hex & Hrun)].
  - destruct Hwhy as [->|(content & -> & Hex)]; [apply Hrun|].
    rewrite Hex. split; [|apply Hrun].
    unfold extract_icann_domains in Hex.
    destruct (find_markers _ _ _) as [[?|] [?|]]; congruence.
  - rewrite Hex. destruct (Hrun w) as [Hres Hfiles].
    split; [done|]. rewrite Hfiles.
    split; [|split; [|split; [|split; [|split]]]].
    + rewrite dom_union_L, !dom_insert_L, dom_singleton_L.
      unfold output_names. set_solver.
    + intros f Hf. rewrite lookup_union_r; [done|].
      unfold output_names in Hf.
      rewrite !lookup_insert_ne, lookup_singleton_ne; [done|..];
        intros <-; set_solver.
    + by rewrite (lookup_union_Some_l _ _ _ _ (lookup_insert_eq _ _ _)).
    + apply lookup_union_Some_l.
      rewrite lookup_insert_ne by done. apply lookup_insert_eq.
    + exists j1. apply lookup_union_Some_l.
      rewrite !lookup_insert_ne by done. apply lookup_insert_eq.
    + exists j2. apply lookup_union_Some_l.
      rewrite !lookup_insert_ne by done. apply lookup_singleton_eq.
Qed.

(** X10: running the script again on the same response leaves the files
    as the first run left them. *)
Theorem main_idempotent response w :
  files (main response (main response w).2).2 = files (main response w).2.
Proof.
  destruct (main_cases response)
    as [(e & _ & Hrun)|(content & icann_lines & j1 & j2 & _ & _ & Hrun)].
  - destruct (Hrun (main response w).2) as [_ ->]. done.
  - destruct (Hrun (main response w).2) as [_ ->].
    destruct (Hrun w) as [_ ->].
    by rewrite (assoc_L (∪)), (idemp_L (∪)).
Qed.

End outcomes.

Section tables.

Lemma ranked_keys (data : gmap string Z) :
  (ranked data).*1 ≡ₚ elements (dom data).
Proof.
  rewrite ranked_perm. apply NoDup_Permutation.
  - apply NoDup_fst_map_to_list.
  - apply NoDup_elements.
  - intros c. rewrite elem_of_elements, elem_of_dom, list_elem_of_fmap. split.
    + intros ([c' v] & -> & Hin%elem_of_map_to_list). by exists v.
    + intros [v Hv]. exists (c, v). split; [done|].
      by apply elem_of_map_to_list.
Qed.

Lemma elem_of_ranked (data : gmap string Z) c v :
  (c, v) ∈ ranked data ↔ data !! c = Some v.
Proof. by rewrite ranked_perm, elem_of_map_to_list. Qed.

Lemma parse_domains_same_keys lines excl :
  dom (component_tlds (parse_domains lines excl))
  = dom (component_total_count (parse_domains lines excl)).
Proof.
  destruct (parse_domains_lookup lines excl) as (H1 & H2 & _).
  apply set_eq. intros c. by rewrite !elem_of_dom, H1, H2, !entry_is_Some.
Qed.

(** X11: the two ranked tables of a parse list the same components, as
    many as the component index has keys; every unique-TLD value is at
    least one and at most the total value in the row of the same component
    of the other table. *)
Theorem frequency_tables_agree lines excl :
  let ix := parse_domains lines excl in
  let freqs := calculate_frequencies (component_tlds ix) (component_total_count ix) in
  (ranked freqs.1).*1 ≡ₚ (ranked freqs.2).*1 ∧
  length (ranked freqs.1) = size (component_tlds ix) ∧
  length (ranked freqs.2) = size (component_tlds ix) ∧
  (∀ c u, (c, u) ∈ ranked freqs.2 →
          1 ≤ u ∧ ∃ t, (c, t) ∈ ranked freqs.1 ∧ u ≤ t).
Proof.
  simpl. pose proof (parse_domains_same_keys lines excl) as Hdom.
  split; [|split; [|split]].
  - by rewrite !ranked_keys, dom_fmap_L, Hdom.
  - rewrite (Permutation_length (ranked_perm _)), length_map_to_list.
    by rewrite <- !size_dom, Hdom.
  - rewrite (Permutation_length (ranked_perm _)), length_map_to_list.
    by rewrite <- !size_dom, dom_fmap_L.
  - intros c u. rewrite elem_of_ranked, lookup_fmap.
    destruct (parse_domains_lookup lines excl) as (H1 & H2 & _).
    rewrite H1.
    destruct (tlds_of c (occurrences excl lines)) as [|t ts] eqn:Hts;
      simpl; [done|].
    intros [= <-]. split.
    + rewrite size_union_alt, size_singleton. lia.
    + exists (Z.of_nat (length (t :: ts))). split.
      * apply elem_of_ranked. by rewrite H2, Hts.
      * pose proof (size_list_to_set_le (t :: ts)) as Hle.
        simpl in *. lia.
Qed.

Example frequency_tables_example :
  ranked (calculate_frequencies
            (component_tlds (parse_domains ["co.uk"; "co.nz"; "ac.uk"; "co.co.nz"] ∅))
            (component_total_count
               (parse_domains ["co.uk"; "co.nz"; "ac.uk"; "co.co.nz"] ∅))).1
    = [("co", 4); ("ac", 1)] ∧
  ranked (calculate_frequencies
            (component_tlds (parse_domains ["co.uk"; "co.nz"; "ac.uk"; "co.co.nz"] ∅))
            (component_total_count
               (parse_domains ["co.uk"; "co.nz"; "ac.uk"; "co.co.nz"] ∅))).2
    = [("co", 2); ("ac", 1)].
Proof. by vm_compute. Qed.

End tables.

Section exclusion_semantics.

Implicit Types (excl : gset string) (occs : list (string * string)).

Lemma filter_pairs_tld excl tld (comps : list string) :
  filter (λ o : string * string, o.1 ∉ excl) ((λ c, (tld, c)) <$> comps)
  = if decide (tld ∈ excl) then [] else (λ c, (tld, c)) <$> comps.
Proof.
  induction comps as [|c comps IH].
  { by destruct (decide _). }
  rewrite fmap_cons, filter_cons, IH. simpl.
  destruct (decide (tld ∈ excl)) as [Hin|Hnin].
  - by rewrite decide_False by (intros Hn; by apply Hn).
  - by rewrite decide_True.
Qed.

Lemma line_occurrences_filter excl line :
  line_occurrences excl line
  = filter (λ o, o.1 ∉ excl) (line_occurrences ∅ line).
Proof.
  unfold line_occurrences, line_entry.
  destruct (line_labels line) as [parts|]; simpl; [|done].
  destruct (length parts <? 2)%nat; [done|].
  destruct (last parts) as [tld|]; simpl; [|done].
  rewrite (decide_False (P := tld ∈ (∅ : gset string)))
    by apply not_elem_of_empty.
  rewrite filter_pairs_tld. by destruct (decide (tld ∈ excl)).
Qed.

Lemma occurrences_filter excl lines :
  occurrences excl lines = filter (λ o, o.1 ∉ excl) (occurrences ∅ lines).
Proof.
  unfold occurrences. induction lines as [|line lines IH]; [done|].
  by rewrite !bind_cons, filter_app, IH, line_occurrences_filter.
Qed.

Lemma filter_none {A} (P : A → Prop) `{!∀ x, Decision (P x)} (l : list A) :
  (∀ x, x ∈ l → ¬ P x) → filter P l = [].
Proof.
  induction l as [|x l IH]; intros Hn; [done|].
  rewrite filter_cons, decide_False by (apply Hn; by left).
  apply IH. intros y Hy. apply Hn. by right.
Qed.

Lemma default_entry_set (l : list string) :
  default ∅ (entry (λ ts, list_to_set ts) l) =@{gset string} list_to_set l.
Proof. by destruct l. Qed.

Lemma default_entry_length (l : list string) :
  default 0 (entry (λ ts, Z.of_nat (length ts)) l) = Z.of_nat (length l).
Proof. by destruct l. Qed.

(** X12: what the exclusion set does. Compared with the parse under the
    empty exclusion set, an excluded TLD has no component list and every
    other TLD keeps its list; the TLD set of a component loses exactly the
    excluded TLDs; no count grows. *)
Theorem exclusion_filters lines excl :
  (∀ t, tld_components (parse_domains lines excl) !! t
        = if decide (t ∈ excl) then None
          else tld_components (parse_domains lines ∅) !! t) ∧
  (∀ c, default ∅ (component_tlds (parse_domains lines excl) !! c)
        = default ∅ (component_tlds (parse_domains lines ∅) !! c) ∖ excl) ∧
  (∀ c, default 0 (component_total_count (parse_domains lines excl) !! c)
        ≤ default 0 (component_total_count (parse_domains lines ∅) !! c)).
Proof.
  destruct (parse_domains_lookup lines excl) as (H1 & H2 & H3).
  destruct (parse_domains_lookup lines ∅) as (E1 & E2 & E3).
  rewrite occurrences_filter in H1, H2, H3.
  split; [|split].
  - intros t. rewrite H3, E3. unfold components_of.
    destruct (decide (t ∈ excl)) as [Hin|Hnin].
    + rewrite filter_none; [done|].
      intros o [Ho _]%list_elem_of_filter Heq. apply Ho. by rewrite Heq.
    + by rewrite list_filter_filter_l by (by intros o ->).
  - intros c. rewrite H1, E1.
    rewrite !default_entry_set.
    apply set_eq. intros t.
    rewrite elem_of_difference, !elem_of_list_to_set, !elem_of_tlds_of.
    rewrite list_elem_of_filter. simpl. naive_solver.
  - intros c. rewrite H2, E2.
    rewrite !default_entry_length.
    unfold tlds_of. rewrite !length_fmap, list_filter_filter.
    assert (filter (λ o : string * string, o.2 = c ∧ o.1 ∉ excl)
              (occurrences ∅ lines)
            = filter (λ o, o.1 ∉ excl)
                (filter (λ o, o.2 = c) (occurrences ∅ lines))) as ->.
    { rewrite list_filter_filter. apply list_filter_iff. naive_solver. }
    pose proof (length_filter (λ o : string * string, o.1 ∉ excl)
                  (filter (λ o, o.2 = c) (occurrences ∅ lines))).
    lia.
Qed.

Example exclusion_filters_example :
  tld_components (parse_domains ["co.jp"; "co.uk"; "ac.jp"] {["jp"]}) !! "jp"
    = None ∧
  component_tlds (parse_domains ["co.jp"; "co.uk"; "ac.jp"] {["jp"]}) !! "co"
    = Some {["uk"]} ∧
  component_tlds (parse_domains ["co.jp"; "co.uk"; "ac.jp"] ∅) !! "co"
    = Some {["jp"; "uk"]}.
Proof. by vm_compute. Qed.

End exclusion_semantics.

Section marker_indexes.

Lemma find_markers_inv lines idx st s e :
  find_markers lines idx st = (s, e) →
  (∀ ei, e = Some ei →
     (idx ≤ ei < idx + length lines)%nat ∧
     ∃ el, lines !! (ei - idx)%nat = Some el ∧ is_end_line el = true) ∧
  (∀ si, s = Some si →
     st = Some si ∨
     ((idx < si ≤ idx + length lines)%nat ∧
      (∃ sl, lines !! (si - 1 - idx)%nat = Some sl ∧ is_start_line sl = true) ∧
      ∀ ei, e = Some ei → (si ≤ ei)%nat)).
Proof.
  revert idx st. induction lines as [|line lines IH]; intros idx st; simpl.
  { intros [= <- <-]. split; [done|]. intros si ->. by left. }
  destruct (Py.contains start_marker line) eqn:Hs.
  - intros Hfm. destruct (IH _ _ Hfm) as [He Hst]. split.
    + intros ei Hei. destruct (He ei Hei) as [Hb (el & Hl & Hel)].
      split; [lia|]. exists el. split; [|done].
      replace (ei - idx)%nat with (S (ei - S idx)) by lia. done.
    + intros si Hsi. right.
      destruct (Hst si Hsi) as [[= <-]|(Hb & (sl & Hl & Hsl) & Hle)].
      * split; [lia|]. split.
        -- exists line. replace (S idx - 1 - idx)%nat with 0%nat by lia.
           done.
        -- intros ei Hei. destruct (He ei Hei) as [Hb _]. lia.
      * split; [lia|]. split; [|done]. exists sl. split; [|done].
        replace (si - 1 - idx)%nat with (S (si - 1 - S idx)) by lia. done.
  - destruct (Py.contains end_marker line) eqn:Hend.
    + intros [= <- <-]. split.
      * intros ei [= <-]. split; [lia|]. exists line.
        rewrite Nat.sub_diag. split; [done|].
        unfold is_end_line. by rewrite Hs, Hend.
      * intros si ->. by left.
    + intros Hfm. destruct (IH _ _ Hfm) as [He Hst]. split.
      * intros ei Hei. destruct (He ei Hei) as [Hb (el & Hl & Hel)].
        split; [lia|]. exists el. split; [|done].
        replace (ei - idx)%nat with (S (ei - S idx)) by lia. done.
      * intros si Hsi.
        destruct (Hst si Hsi) as [->|(Hb & (sl & Hl & Hsl) & Hle)];
          [by left|right].
        split; [lia|]. split; [|done]. exists sl. split; [|done].
        replace (si - 1 - idx)%nat with (S (si - 1 - S idx)) by lia. done.
Qed.

(** X13: when the loop of the extractor finds both markers, the indexes it
    leaves are in range and in order: [start_idx] is one past a start
    marker line, [end_idx] is at an end marker line that is not before
    [start_idx], and the slice between them has [end_idx - start_idx]
    lines. *)
Theorem find_markers_bounds lines s e :
  find_markers lines 0 None = (Some s, Some e) →
  (1 ≤ s ≤ e)%nat ∧ (e < length lines)%nat ∧
  (∃ sl, lines !! (s - 1)%nat = Some sl ∧ is_start_line sl = true) ∧
  (∃ el, lines !! e = Some el ∧ is_end_line el = true) ∧
  length (Py.slice lines s e) = (e - s)%nat.
Proof.
  intros Hfm. destruct (find_markers_inv _ _ _ _ _ Hfm) as [He Hs].
  destruct (He e eq_refl) as [Hb (el & Hl & Hel)].
  destruct (Hs s eq_refl) as [?|(Hb' & (sl & Hsl & Hstart) & Hle)]; [done|].
  specialize (Hle e eq_refl).
  rewrite Nat.sub_0_r in Hl, Hsl.
  split; [lia|]. split; [lia|]. split; [by exists sl|]. split; [by exists el|].
  unfold Py.slice. rewrite length_drop, length_take. lia.
Qed.

Lemma find_markers_bounds_witness :
  (1 ≤ 2 ≤ 4)%nat ∧
  length (Py.slice ["// x"; start_marker; "ac"; "com.ac"; end_marker; "z"] 2 4)
    = 2%nat.
Proof.
  destruct (find_markers_bounds
              ["// x"; start_marker; "ac"; "com.ac"; end_marker; "z"] 2 4)
    as (H1 & _ & _ & _ & H5); [by vm_compute|].
  by split.
Defined.

End marker_indexes.

Section markup.

Lemma rstrip_space_cons c s :
  Py.isspace c = false →
  Py.rstrip_space (String c s) = String c (Py.rstrip_space s).
Proof. intros Hc. simpl. rewrite Hc. by destruct (Py.rstrip_space s). Qed.

Lemma lstrip_char_id c s :
  Py.startswith s (String c "") = false → Py.lstrip (String c "") s = s.
Proof.
  destruct s as [|d s]; [done|]. simpl. rewrite orb_false_r.
  by destruct (Ascii.eqb d c).
Qed.

(** What the parser does once the labels of a line are known. *)
Lemma parse_line_parts excl ix line :
  Py.truthy (Py.strip line) = true →
  Py.startswith (Py.strip line) "//" = false →
  parse_line excl ix line
  = let parts := split_parts (strip_markers (Py.strip line)) in
    if (length parts <? 2)%nat then ix
    else match last parts with
         | None => ix
         | Some tld =>
             if decide (tld ∈ excl) then ix
             else foldl (record_component tld) ix
                        (take (length parts - 1) parts)
         end.
Proof. intros Ht Hc. unfold parse_line. by rewrite Ht, Hc. Qed.

(** X14: markup does not change what a rule contributes: for a rule [s]
    without surrounding whitespace that is not a comment and carries no
    marker itself, the wildcard form [*.s] and the exception form [!s] are
    parsed exactly as [s]. *)
Theorem parse_line_markup excl ix s :
  Py.lstrip_space s = s →
  Py.rstrip_space s = s →
  Py.startswith s "//" = false →
  Py.startswith s "*" = false →
  Py.startswith s "!" = false →
  parse_line excl ix ("*." +:+ s) = parse_line excl ix s ∧
  parse_line excl ix ("!" +:+ s) = parse_line excl ix s.
Proof.
  intros Hl Hr Hc Hstar Hbang.
  assert (Py.strip s = s) as Hs by (unfold Py.strip; by rewrite Hl).
  assert (strip_markers s = s) as Hm.
  { unfold strip_markers. by rewrite (lstrip_char_id "*"), (lstrip_char_id "!"). }
  assert (Py.strip ("*." +:+ s) = "*." +:+ s) as Hs1.
  { unfold Py.strip. change ("*." +:+ s) with (String "*" (String "." s)).
    change (Py.lstrip_space (String "*" (String "." s)))
      with (String "*" (String "." s)).
    by rewrite !rstrip_space_cons, Hr. }
  assert (Py.strip ("!" +:+ s) = "!" +:+ s) as Hs2.
  { unfold Py.strip. change ("!" +:+ s) with (String "!" s).
    change (Py.lstrip_space (String "!" s)) with (String "!" s).
    by rewrite rstrip_space_cons, Hr. }
  assert (split_parts (strip_markers ("*." +:+ s)) = split_parts s) as Hp1.
  { change (strip_markers ("*." +:+ s))
      with (Py.lstrip "!" (Py.lstrip "*" (String "." s))).
    change (Py.lstrip "*" (String "." s)) with (String "." s).
    change (Py.lstrip "!" (String "." s)) with (String "." s).
    unfold split_parts. simpl. by rewrite filter_cons. }
  assert (split_parts (strip_markers ("!" +:+ s)) = split_parts s) as Hp2.
  { change (strip_markers ("!" +:+ s)) with (Py.lstrip "!" s).
    by rewrite (lstrip_char_id "!"). }
  assert (∀ line, Py.strip line = line → Py.truthy line = true →
                  Py.startswith line "//" = false →
                  split_parts (strip_markers line) = split_parts s →
                  parse_line excl ix line = parse_line excl ix s) as Hsame.
  { intros line Hline Ht Hcm Hparts.
    rewrite (parse_line_parts excl ix line) by by rewrite Hline.
    rewrite Hline, Hparts. cbv zeta.
    destruct (Py.truthy s) eqn:Hts.
    - rewrite (parse_line_parts excl ix s) by by rewrite Hs.
      by rewrite Hs, Hm.
    - destruct s; [|done]. by rewrite parse_line_occurrences. }
  split; apply Hsame; done.
Qed.

Lemma parse_line_markup_witness :
  parse_line default_exclude_tlds empty_indexes "*.sch.uk"
    = parse_line default_exclude_tlds empty_indexes "sch.uk" ∧
  parse_line default_exclude_tlds empty_indexes "!sch.uk"
    = parse_line default_exclude_tlds empty_indexes "sch.uk".
Proof.
  apply (parse_line_markup default_exclude_tlds empty_indexes "sch.uk");
    reflexivity.
Defined.

End markup.
